(** * tp7-util: the TP-7 multitrack converter

    A shallow embedding of [tp7_util.py]: the 24-bit sample codec
    ([read_24bit_audio], [write_24bit_audio]), the demultiplexer
    ([export_multitrack]) and the multiplexer ([import_to_multitrack]),
    over a small model of the file system and of Python's [wave] module. *)

From Stdlib Require Import ZArith Lia.
From Stdlib Require Import Strings.Byte Strings.Ascii Strings.String.
From stdpp Require Import gmap strings list.

Local Open Scope Z_scope.

(** ** Bytes and fixed-width integers *)

Module Codec.

(** The value of a [np.uint8]. *)
Definition byte_val (b : byte) : Z := Z.of_N (Byte.to_N b).

(** The byte holding the low eight bits of an integer. *)
Definition to_uint8 (z : Z) : byte :=
  match Byte.of_N (Z.to_N (z mod 256)) with
  | Some b => b
  | None => x00
  end.

(** Wrap-around of a [bits]-wide two's complement integer
    ([astype(np.int16)], [astype(np.int32)]). *)
Definition wrap_signed (bits : Z) (z : Z) : Z :=
  (z + 2 ^ (bits - 1)) mod 2 ^ bits - 2 ^ (bits - 1).

Definition astype_int16 : Z -> Z := wrap_signed 16.
Definition astype_int32 : Z -> Z := wrap_signed 32.

(** A group of bytes viewed as one unsigned little-endian integer
    ([view('<u4')] on four bytes). *)
Fixpoint le_unsigned (bs : list byte) : Z :=
  match bs with
  | [] => 0
  | b :: bs' => byte_val b + 256 * le_unsigned bs'
  end.

(** The [k] bytes of a two's complement integer, least significant first
    ([view(np.uint8)] of an integer array, [tobytes()]). *)
Fixpoint le_bytes (k : nat) (z : Z) : list byte :=
  match k with
  | O => []
  | S k' => to_uint8 z :: le_bytes k' (z / 256)
  end.

(** The first [length l / c] rows of [c] consecutive elements. *)
Definition chunks {A} (c : nat) (l : list A) : list (list A) :=
  reshape (replicate (length l / c) c) l.

(** [a.reshape(-1, c)]: numpy raises [ValueError] unless the size is a
    multiple of [c]. *)
Definition reshape_rows {A} (c : nat) (l : list A) : option (list (list A)) :=
  if decide (c ≠ 0%nat ∧ (length l mod c = 0)%nat) then Some (chunks c l) else None.

(** [a.reshape(n, c)]: numpy raises [ValueError] unless the size is [n * c]. *)
Definition reshape_2d {A} (n c : nat) (l : list A) : option (list (list A)) :=
  if decide (length l = (n * c)%nat) then Some (reshape (replicate n c) l) else None.

(** [np.frombuffer(data, dtype)] for an integer dtype of [k] bytes:
    [ValueError] unless the buffer is a whole number of items. *)
Definition frombuffer (k : nat) (interp : list byte -> Z) (data : list byte)
  : option (list Z) :=
  if decide ((length data mod k = 0)%nat) then Some (interp <$> chunks k data) else None.

(** [k] bytes read as one signed little-endian integer. *)
Definition signed_le (k : nat) (bs : list byte) : Z :=
  wrap_signed (8 * Z.of_nat k) (le_unsigned bs).

Definition frombuffer_int16 : list byte -> option (list Z) := frombuffer 2 (signed_le 2).
Definition frombuffer_int32 : list byte -> option (list Z) := frombuffer 4 (signed_le 4).

(** [a.astype(np.int16).tobytes()] and [a.astype(np.int32).tobytes()]. *)
Definition tobytes_int16 (a : list Z) : list byte :=
  a ≫= (fun v => le_bytes 2 (astype_int16 v)).
Definition tobytes_int32 (a : list Z) : list byte :=
  a ≫= (fun v => le_bytes 4 (astype_int32 v)).

(** *** [read_24bit_audio] *)

(** One row of the [padded] array, viewed as [<u4], sign-extended and
    cast to [np.int32]. *)
Definition sign_extend_24 (audio_32bit : Z) : Z :=
  let sign_bit_mask := negb (Z.land audio_32bit 0x00800000 =? 0) in
  astype_int32 (if sign_bit_mask then Z.lor audio_32bit 0xFF000000 else audio_32bit).

Definition read_24bit_audio (audio_bytes : list byte) : option (list Z) :=
  match reshape_rows 3 audio_bytes with
  | None => None
  | Some audio_bytes =>
      (* padded = zeros((n, 4)); padded[:, :3] = audio_bytes *)
      let padded := (fun row => row ++ [x00]) <$> audio_bytes in
      let audio_32bit := le_unsigned <$> padded in
      Some (sign_extend_24 <$> audio_32bit)
  end.

(** *** [write_24bit_audio] *)

Definition write_24bit_audio (audio_array : list Z) : list byte :=
  let audio_array := astype_int32 <$> audio_array in
  let audio_bytes := le_bytes 4 <$> audio_array in
  mjoin (take 3 <$> audio_bytes).

End Codec.

(** ** The file system and the [wave] module *)

Module FS.

(** A path is the list of its components ([pathlib]'s [parts]); the empty
    path is the directory that relative paths start from. *)
Definition path := list string.

(** What [wave.open] reads from, or writes to, a PCM container: the
    parameters of the header and the bytes of the data chunk. *)
Record wav := Wave {
  nchannels : nat;
  sampwidth : nat;
  framerate : N;
  frames : list byte
}.

Inductive content :=
  | Wav (w : wav)
  | NotWav.

Inductive node :=
  | File (c : content)
  | Dir.

(** Exceptions of the Python run time that the program can meet. *)
Inductive exn :=
  | FileNotFoundError
  | FileExistsError
  | IsADirectoryError
  | NotADirectoryError
  | WaveError
  | ValueError
  | IndexError
  | ZeroDivisionError.

Definition node_at (s : gmap path node) (p : path) : option node :=
  match p with
  | [] => Some Dir
  | _ => s !! p
  end.

(** [Path.exists()] *)
Definition exists_ (s : gmap path node) (p : path) : bool :=
  match node_at s p with
  | Some _ => true
  | None => false
  end.

(** [Path.parent], [Path.name] and [Path.stem] *)
Definition parent (p : path) : path := removelast p.

Definition name (p : path) : string := List.last p EmptyString.

Fixpoint rfind_dot (s : string) : option nat :=
  match s with
  | EmptyString => None
  | String c s' =>
      match rfind_dot s' with
      | Some i => Some (S i)
      | None => if Ascii.eqb c "."%char then Some 0%nat else None
      end
  end.

Definition stem (p : path) : string :=
  let name := name p in
  match rfind_dot name with
  | Some i =>
      if ((0 <? i) && (i <? String.length name - 1))%nat
      then substring 0 i name
      else name
  | None => name
  end.

(** [Path.mkdir(exist_ok=True)], without [parents=True]: an existing
    directory is accepted, anything else of that name is not, and the
    parent must be there. *)
Definition mkdir_exist_ok (s : gmap path node) (p : path) : exn + gmap path node :=
  match node_at s p with
  | Some Dir => inr s
  | Some (File _) => inl FileExistsError
  | None =>
      match node_at s (parent p) with
      | Some Dir => inr (<[p := Dir]> s)
      | Some (File _) => inl NotADirectoryError
      | None => inl FileNotFoundError
      end
  end.

(** [wave.open(p, 'rb')]: the header is parsed when the file is opened,
    and a header without channels or without a sample width is refused. *)
Definition wave_open_rb (s : gmap path node) (p : path) : exn + wav :=
  match node_at s p with
  | None => inl FileNotFoundError
  | Some Dir => inl IsADirectoryError
  | Some (File NotWav) => inl WaveError
  | Some (File (Wav w)) =>
      if decide (nchannels w = 0%nat ∨ sampwidth w = 0%nat) then inl WaveError
      else inr w
  end.

Definition framesize (w : wav) : nat := (nchannels w * sampwidth w)%nat.

(** [getparams().nframes]: the size of the data chunk in whole frames. *)
Definition getnframes (w : wav) : nat := (length (frames w) / framesize w)%nat.

Definition readframes (w : wav) (n : nat) : list byte :=
  take (n * framesize w) (frames w).

(** [with wave.open(p, 'wb') as out]: [setnchannels], [setsampwidth],
    [setframerate], one [writeframes], and the header written on close.
    The setters refuse a channel count of zero, a sample width outside
    1..4 and a frame rate of zero; neither caller can get there with
    such a value. *)
Definition wave_write (s : gmap path node) (p : path)
    (nch width : nat) (rate : N) (data : list byte) : exn + gmap path node :=
  match node_at s p with
  | Some Dir => inl IsADirectoryError
  | _ =>
      match node_at s (parent p) with
      | None => inl FileNotFoundError
      | Some (File _) => inl NotADirectoryError
      | Some Dir =>
          if decide (nch = 0%nat ∨ width = 0%nat ∨ (4 < width)%nat ∨ rate = 0%N)
          then inl WaveError
          else inr (<[p := File (Wav (Wave nch width rate data))]> s)
      end
  end.

End FS.

(** ** The program *)

Module Tp7.
Import Codec FS.

(** The failures the program reports (it prints a message and returns
    [False]), named as the specification names them. *)
Inductive error :=
  | IOError               (* "Input file ... not found", "Error processing file" *)
  | UnsupportedBitDepth   (* "Unsupported sample width" *)
  | ChannelCountMismatch  (* "Expected 12 channels", "must be stereo" *)
  | SampleWidthMismatch   (* "Sample width mismatch" *)
  | SampleRateMismatch    (* "Sample rate mismatch" *)
  | TooManyTracks         (* "TP-7 supports maximum 6 stereo tracks" *)
  | NoValidInputs.        (* "No valid input files found" *)

(** How a call ends: it returns [True], it returns [False] after
    reporting a failure, or an exception leaves it. *)
Inductive result :=
  | Success
  | Failure (e : error)
  | Uncaught (x : exn).

(** The conversion of the payload to an array, the [if]/[elif] chain on
    the sample width that both operations share. *)
Inductive decoded :=
  | Decoded (audio_array : list Z)
  | BadBuffer
  | Unsupported.

Definition of_option (o : option (list Z)) : decoded :=
  match o with
  | Some a => Decoded a
  | None => BadBuffer
  end.

Definition to_array (sample_width : nat) (audio_data : list byte) : decoded :=
  if decide (sample_width = 2%nat) then of_option (frombuffer_int16 audio_data)
  else if decide (sample_width = 3%nat) then of_option (read_24bit_audio audio_data)
  else if decide (sample_width = 4%nat) then of_option (frombuffer_int32 audio_data)
  else Unsupported.

(** The conversion back to bytes before [writeframes]; the chain has no
    [else], so no frame is written for another width. *)
Definition to_bytes (sample_width : nat) (a : list Z) : list byte :=
  if decide (sample_width = 2%nat) then tobytes_int16 a
  else if decide (sample_width = 3%nat) then write_24bit_audio a
  else if decide (sample_width = 4%nat) then tobytes_int32 a
  else [].

(** [a[:, cols]]: an index outside a row raises [IndexError]. *)
Definition select_columns (cols : list nat) (a : list (list Z)) : option (list (list Z)) :=
  mapM (fun row => mapM (fun c => row !! c) cols) a.

(** [f"{n:02d}"] *)
Definition digit (n : nat) : string :=
  String (ascii_of_nat (48 + n mod 10)) EmptyString.

Fixpoint digits (fuel n : nat) : string :=
  match fuel with
  | O => EmptyString
  | S fuel' => if (n <? 10)%nat then digit n else (digits fuel' (n / 10) +:+ digit n)%string
  end.

Definition format_02d (n : nat) : string :=
  if (n <? 10)%nat then ("0" +:+ digit n)%string else digits (S n) n.

Definition track_file (output_dir : path) (track_num : nat) : path :=
  output_dir ++ [("track_" +:+ format_02d (track_num + 1) +:+ ".wav")%string].

(** *** [export_multitrack] *)

(** The loop over [range(6)]; it runs inside the [try], so an exception
    ends it with the tracks written so far left in place. *)
Fixpoint export_tracks (s : gmap path node) (output_dir : path)
    (sample_width : nat) (framerate : N) (audio_array : list (list Z))
    (track_nums : list nat) : gmap path node * result :=
  match track_nums with
  | [] => (s, Success)
  | track_num :: rest =>
      let left_channel := (track_num * 2)%nat in
      let right_channel := (track_num * 2 + 1)%nat in
      match select_columns [left_channel; right_channel] audio_array with
      | None => (s, Failure IOError)
      | Some stereo_data =>
          let output_file := track_file output_dir track_num in
          match wave_write s output_file 2 sample_width framerate
                  (to_bytes sample_width (mjoin stereo_data)) with
          | inl _ => (s, Failure IOError)
          | inr s' => export_tracks s' output_dir sample_width framerate audio_array rest
          end
      end
  end.

(** The output directory: the one given, or [<stem>_tracks] next to
    the input. *)
Definition resolve_output_dir (input_path : path) (output_dir : option path) : path :=
  match output_dir with
  | None => parent input_path ++ [(stem input_path +:+ "_tracks")%string]
  | Some d => d
  end.

Definition export_multitrack (s : gmap path node) (input_file : path)
    (output_dir : option path) : gmap path node * result :=
  let input_path := input_file in
  if negb (exists_ s input_path) then (s, Failure IOError) else
  let output_dir := resolve_output_dir input_path output_dir in
  match mkdir_exist_ok s output_dir with
  | inl x => (s, Uncaught x)
  | inr s =>
      (* try: ... except Exception: return False *)
      match wave_open_rb s input_path with
      | inl _ => (s, Failure IOError)
      | inr wav_in =>
          let channels := nchannels wav_in in
          if decide (channels ≠ 12%nat) then (s, Failure ChannelCountMismatch) else
          let sample_width := sampwidth wav_in in
          let framerate := framerate wav_in in
          let n_frames := getnframes wav_in in
          (* the "Duration" line divides by the frame rate *)
          if decide (framerate = 0%N) then (s, Failure IOError) else
          let audio_data := readframes wav_in n_frames in
          match to_array sample_width audio_data with
          | Unsupported => (s, Failure UnsupportedBitDepth)
          | BadBuffer => (s, Failure IOError)
          | Decoded audio_array =>
              match reshape_2d n_frames channels audio_array with
              | None => (s, Failure IOError)
              | Some audio_array =>
                  export_tracks s output_dir sample_width framerate audio_array (seq 0 6)
              end
          end
      end
  end.

(** *** [import_to_multitrack] *)

(** The loop that loads every valid file; no exception is caught here. *)
Fixpoint load_tracks (s : gmap path node) (ref_width : nat) (ref_rate : N)
    (valid_files : list path) : result + list (list (list Z)) :=
  match valid_files with
  | [] => inr []
  | input_file :: rest =>
      match wave_open_rb s input_file with
      | inl x => inl (Uncaught x)
      | inr wav_in =>
          if decide (nchannels wav_in ≠ 2%nat) then inl (Failure ChannelCountMismatch) else
          if decide (sampwidth wav_in ≠ ref_width) then inl (Failure SampleWidthMismatch) else
          if decide (framerate wav_in ≠ ref_rate) then inl (Failure SampleRateMismatch) else
          let audio_data := readframes wav_in (getnframes wav_in) in
          match to_array ref_width audio_data with
          | Unsupported => inl (Failure UnsupportedBitDepth)
          | BadBuffer => inl (Uncaught ValueError)
          | Decoded audio_array =>
              match reshape_rows 2 audio_array with
              | None => inl (Uncaught ValueError)
              | Some audio_array =>
                  match load_tracks s ref_width ref_rate rest with
                  | inl r => inl r
                  | inr all_tracks => inr (audio_array :: all_tracks)
                  end
              end
          end
      end
  end.

(** [multitrack[:track_frames, c:c+2] = track] *)
Fixpoint assign_block (c : nat) (track multitrack : list (list Z)) : list (list Z) :=
  match track, multitrack with
  | t :: track', row :: multitrack' =>
      <[S c := t !!! 1%nat]> (<[c := t !!! 0%nat]> row) :: assign_block c track' multitrack'
  | _, _ => multitrack
  end.

(** The loop over [enumerate(all_tracks)], from index [i] on. *)
Fixpoint fill_tracks (i : nat) (all_tracks : list (list (list Z)))
    (multitrack : list (list Z)) : list (list Z) :=
  match all_tracks with
  | [] => multitrack
  | track :: rest => fill_tracks (S i) rest (assign_block (i * 2) track multitrack)
  end.

Definition build_multitrack (all_tracks : list (list (list Z))) : list (list Z) :=
  let max_frames := max_list (length <$> all_tracks) in
  let multitrack := replicate max_frames (replicate 12 0) in
  fill_tracks 0 all_tracks multitrack.

Definition import_to_multitrack (s : gmap path node) (input_files : list path)
    (output_file : path) : gmap path node * result :=
  let valid_files := filter (fun f => exists_ s f = true) input_files in
  match valid_files with
  | [] => (s, Failure NoValidInputs)
  | first :: _ =>
      if decide (6 < length valid_files)%nat then (s, Failure TooManyTracks) else
      match wave_open_rb s first with
      | inl x => (s, Uncaught x)
      | inr wav_ref =>
          let ref_channels := nchannels wav_ref in
          let ref_width := sampwidth wav_ref in
          let ref_rate := framerate wav_ref in
          if decide (ref_channels ≠ 2%nat) then (s, Failure ChannelCountMismatch) else
          match load_tracks s ref_width ref_rate valid_files with
          | inl r => (s, r)
          | inr all_tracks =>
              (* the "Max track length" line divides by the reference rate *)
              if decide (ref_rate = 0%N) then (s, Uncaught ZeroDivisionError) else
              let multitrack := build_multitrack all_tracks in
              match wave_write s output_file 12 ref_width ref_rate
                      (to_bytes ref_width (mjoin multitrack)) with
              | inl x => (s, Uncaught x)
              | inr s' => (s', Success)
              end
          end
      end
  end.

End Tp7.

(** ** The command line *)

Module Cli.
Import FS Tp7.





End Cli.

(** ** What a container holds *)

Module Container.
Import Codec FS Tp7.

(** The samples of a container, frame after frame, as the program reads
    them. *)
Definition samples (w : wav) : option (list Z) :=
  match to_array (sampwidth w) (readframes w (getnframes w)) with
  | Decoded a => Some a
  | _ => None
  end.

(** The sample of one channel in one frame. *)
Definition sample_at (w : wav) (frame channel : nat) : option Z :=
  if decide (channel < nchannels w)%nat
  then samples w ≫= (fun a => a !! (frame * nchannels w + channel)%nat)
  else None.

(** Columns [2t] and [2t+1] of an array, row by row. *)
Definition stereo_pair (t : nat) (a : list (list Z)) : list (list Z) :=
  (fun row => take 2 (drop (t * 2) row)) <$> a.

(** The entry of an array in row [f] and column [j]. *)
Definition entry (a : list (list Z)) (f j : nat) : option Z :=
  a !! f ≫= (fun row => row !! j).

(** The frames of a container, one row of samples each. *)
Definition rows_of (w : wav) : list (list Z) :=
  match samples w with
  | Some a => chunks (nchannels w) a
  | None => []
  end.

(** An input the multiplexer accepts next to a reference of the given
    width and rate: a readable two-channel container of that format. *)
Definition stereo_input (s : gmap path node) (width : nat) (rate : N)
    (p : path) (w : wav) : Prop :=
  wave_open_rb s p = inr w ∧ nchannels w = 2%nat
  ∧ sampwidth w = width ∧ framerate w = rate.

(** The container stored under a path, if there is one. *)
Definition container_at (s : gmap path node) (p : path) : option wav :=
  match node_at s p with
  | Some (File (Wav w)) => Some w
  | _ => None
  end.

(** The sample widths the program converts: 16, 24 and 32 bits. *)
Definition supported (sample_width : nat) : Prop :=
  sample_width = 2%nat ∨ sample_width = 3%nat ∨ sample_width = 4%nat.

(** The 24-bit value of a little-endian group of three bytes. *)
Definition value_24 (b0 b1 b2 : byte) : Z :=
  byte_val b0 + byte_val b1 * 2 ^ 8 + byte_val b2 * 2 ^ 16.

(** A pattern of 32 bits read as a signed integer. *)
Definition as_signed_32 (x : Z) : Z :=
  if x <? 2 ^ 31 then x else x - 2 ^ 32.

(** The sign extension in the words of the specification: when bit 23
    is set, the 24-bit value OR [0xFF000000] read as a signed 32-bit
    integer; the 24-bit value itself otherwise. *)
Definition sign_extended (b0 b1 b2 : byte) : Z :=
  let v := value_24 b0 b1 b2 in
  if negb (Z.land v 0x800000 =? 0) then as_signed_32 (Z.lor v 0xFF000000) else v.

(** The low three bytes of a sample, least significant first. *)
Definition low_three_bytes (v : Z) : list Z :=
  [Z.land v 0xFF; Z.land (Z.shiftr v 8) 0xFF; Z.land (Z.shiftr v 16) 0xFF].

(** The values a sample of the given width can take. *)
Definition in_range (sample_width : nat) (v : Z) : Prop :=
  - 2 ^ (8 * Z.of_nat sample_width - 1) <= v < 2 ^ (8 * Z.of_nat sample_width - 1).

End Container.

(** ** Sample data *)

Module Examples.
Import Codec FS Tp7.

(** Sixteen-bit frames in which every channel [k] holds the value [k]. *)
Definition constant_frame (channels : nat) : list byte :=
  seq 0 channels ≫= (fun k => le_bytes 2 (Z.of_nat k)).

Definition constant_frames (n channels : nat) : list byte :=
  mjoin (replicate n (constant_frame channels)).

Definition multitrack_16 : wav := Wave 12 2 44100 (constant_frames 3 12).
Definition stereo_16 : wav := Wave 2 2 44100 (constant_frames 4 2).
Definition stereo_16_short : wav := Wave 2 2 44100 [x07; x00; x09; x00].
Definition stereo_16_48k : wav := Wave 2 2 48000 (constant_frames 4 2).
Definition stereo_24_48k : wav := Wave 2 3 48000 [x01; x00; x00; x02; x00; x00].
Definition mono_16 : wav := Wave 1 2 44100 [x01; x00; x02; x00].
Definition stereo_100 : wav := Wave 2 2 44100 (constant_frames 100 2).
Definition stereo_50 : wav :=
  Wave 2 2 44100 (mjoin (replicate 50 [x05; x00; x06; x00])).

Definition disk : gmap path node :=
  list_to_map
    [ (["multi.wav"], File (Wav multitrack_16));
      (["a.wav"], File (Wav stereo_16));
      (["b.wav"], File (Wav stereo_16_short));
      (["c.wav"], File (Wav stereo_16));
      (["d.wav"], File (Wav stereo_16));
      (["e.wav"], File (Wav stereo_16));
      (["f.wav"], File (Wav stereo_16));
      (["g.wav"], File (Wav stereo_16));
      (["fast.wav"], File (Wav stereo_16_48k));
      (["fast24.wav"], File (Wav stereo_24_48k));
      (["mono.wav"], File (Wav mono_16));
      (["long.wav"], File (Wav stereo_100));
      (["short.wav"], File (Wav stereo_50)) ]%string.

End Examples.

(** Containers of other formats, and a file system with an unreadable
    file and with directories in the way. *)
Module Fixtures.
Import Codec FS Tp7.

Definition multitrack_8 : wav := Wave 12 1 44100 (replicate 24 x80).
Definition stereo_8 : wav := Wave 2 1 44100 [x80; x80; x7f; x81].
Definition multitrack_0hz : wav := Wave 12 2 0 (Examples.constant_frames 3 12).
Definition stereo_0hz : wav := Wave 2 2 0 (Examples.constant_frames 4 2).

Definition disk : gmap path node :=
  list_to_map
    [ (["multi.wav"], File (Wav Examples.multitrack_16));
      (["a.wav"], File (Wav Examples.stereo_16));
      (["b.wav"], File (Wav Examples.stereo_16_short));
      (["multi8.wav"], File (Wav multitrack_8));
      (["eight.wav"], File (Wav stereo_8));
      (["multi0.wav"], File (Wav multitrack_0hz));
      (["still.wav"], File (Wav stereo_0hz));
      (["notes.txt"], File NotWav);
      (["taken"], Dir);
      (["taken"; "track_03.wav"], Dir) ]%string.

End Fixtures.

(** ** Facts about the codec *)

Module CodecFacts.
Import Codec.

Lemma byte_val_range (b : byte) : 0 <= byte_val b < 256.
Proof.
  unfold byte_val. pose proof (Byte.to_N_bounded b). lia.
Qed.

Lemma to_uint8_byte_val (b : byte) : to_uint8 (byte_val b) = b.
Proof.
  unfold to_uint8. pose proof (byte_val_range b) as Hr.
  rewrite Z.mod_small by lia. unfold byte_val.
  rewrite N2Z.id, Byte.of_to_N. reflexivity.
Qed.

Lemma byte_val_to_uint8 (z : Z) : byte_val (to_uint8 z) = z mod 256.
Proof.
  unfold to_uint8, byte_val.
  pose proof (Z.mod_pos_bound z 256 ltac:(lia)) as Hr.
  destruct (Byte.of_N (Z.to_N (z mod 256))) as [b|] eqn:E.
  - apply Byte.to_of_N in E. rewrite E. lia.
  - apply Byte.of_N_None_iff in E. lia.
Qed.

Lemma to_uint8_mod (z : Z) : to_uint8 (z mod 256) = to_uint8 z.
Proof. unfold to_uint8. rewrite Z.mod_mod by lia. reflexivity. Qed.

Lemma to_uint8_congr (a b : Z) : a mod 256 = b mod 256 -> to_uint8 a = to_uint8 b.
Proof. intros H. unfold to_uint8. rewrite H. reflexivity. Qed.

Lemma le_unsigned_range (bs : list byte) :
  0 <= le_unsigned bs < 2 ^ (8 * Z.of_nat (length bs)).
Proof.
  induction bs as [|b bs IH]; simpl le_unsigned.
  - simpl. lia.
  - pose proof (byte_val_range b) as Hb.
    replace (8 * Z.of_nat (length (b :: bs))) with (8 + 8 * Z.of_nat (length bs))
      by (simpl length; lia).
    rewrite Z.pow_add_r by lia. change (2 ^ 8) with 256. nia.
Qed.

(** [le_bytes k] only looks at the low [8 * k] bits. *)
Lemma le_bytes_congr (k : nat) (a b : Z) :
  a mod 2 ^ (8 * Z.of_nat k) = b mod 2 ^ (8 * Z.of_nat k) ->
  le_bytes k a = le_bytes k b.
Proof.
  revert a b. induction k as [|k IH]; intros a b H; simpl; [reflexivity|].
  replace (8 * Z.of_nat (S k)) with (8 + 8 * Z.of_nat k) in H by lia.
  rewrite Z.pow_add_r in H by lia. change (2 ^ 8) with 256 in H.
  assert (Hp : 0 < 2 ^ (8 * Z.of_nat k)) by (apply Z.pow_pos_nonneg; lia).
  rewrite !Z.rem_mul_r in H by lia.
  pose proof (Z.mod_pos_bound a 256 ltac:(lia)).
  pose proof (Z.mod_pos_bound b 256 ltac:(lia)).
  pose proof (Z.mod_pos_bound (a / 256) (2 ^ (8 * Z.of_nat k)) Hp).
  pose proof (Z.mod_pos_bound (b / 256) (2 ^ (8 * Z.of_nat k)) Hp).
  assert (a mod 256 = b mod 256 /\
          (a / 256) mod 2 ^ (8 * Z.of_nat k) = (b / 256) mod 2 ^ (8 * Z.of_nat k))
    as [Hlo Hhi] by nia.
  f_equal; [apply to_uint8_congr, Hlo | apply IH, Hhi].
Qed.

Lemma le_bytes_length (k : nat) (z : Z) : length (le_bytes k z) = k.
Proof. revert z. induction k; intros; simpl; auto. Qed.

Lemma le_bytes_le_unsigned (bs : list byte) :
  le_bytes (length bs) (le_unsigned bs) = bs.
Proof.
  induction bs as [|b bs IH]; simpl; [reflexivity|].
  pose proof (byte_val_range b) as Hb.
  replace (byte_val b + 256 * le_unsigned bs)
    with (byte_val b + le_unsigned bs * 256) by lia.
  f_equal.
  - rewrite <- (to_uint8_byte_val b) at 2. apply to_uint8_congr.
    rewrite Z.mod_add by lia. reflexivity.
  - rewrite Z.div_add by lia.
    rewrite (Z.div_small (byte_val b)) by lia. exact IH.
Qed.

Lemma le_unsigned_le_bytes (k : nat) (z : Z) :
  le_unsigned (le_bytes k z) = z mod 2 ^ (8 * Z.of_nat k).
Proof.
  revert z. induction k as [|k IH]; intros z.
  - simpl. rewrite Z.mod_1_r. reflexivity.
  - simpl le_bytes. simpl le_unsigned. rewrite IH, byte_val_to_uint8.
    replace (8 * Z.of_nat (S k)) with (8 + 8 * Z.of_nat k) by lia.
    rewrite Z.pow_add_r by lia. change (2 ^ 8) with 256.
    assert (Hp : 0 < 2 ^ (8 * Z.of_nat k)) by (apply Z.pow_pos_nonneg; lia).
    rewrite Z.rem_mul_r by lia. reflexivity.
Qed.

Lemma take_le_bytes (j k : nat) (z : Z) :
  (j <= k)%nat -> take j (le_bytes k z) = le_bytes j z.
Proof.
  revert k z. induction j as [|j IH]; intros k z Hjk; [reflexivity|].
  destruct k as [|k]; [lia|]. simpl. f_equal. apply IH. lia.
Qed.

(** *** Two's complement *)

Lemma wrap_signed_mod (bits z : Z) :
  0 < bits -> wrap_signed bits z mod 2 ^ bits = z mod 2 ^ bits.
Proof.
  intros Hb. unfold wrap_signed.
  assert (Hp : 0 < 2 ^ bits) by (apply Z.pow_pos_nonneg; lia).
  rewrite Zminus_mod, Zmod_mod, <- Zminus_mod. f_equal. lia.
Qed.

Lemma wrap_signed_range (bits z : Z) :
  0 < bits -> - 2 ^ (bits - 1) <= wrap_signed bits z < 2 ^ (bits - 1).
Proof.
  intros Hb. unfold wrap_signed.
  assert (Hp : 0 < 2 ^ (bits - 1)) by (apply Z.pow_pos_nonneg; lia).
  assert (H2 : 2 ^ bits = 2 * 2 ^ (bits - 1)).
  { replace bits with (1 + (bits - 1)) at 1 by lia. rewrite Z.pow_add_r by lia. reflexivity. }
  pose proof (Z.mod_pos_bound (z + 2 ^ (bits - 1)) (2 ^ bits) ltac:(lia)). lia.
Qed.

Lemma wrap_signed_id (bits z : Z) :
  0 < bits -> - 2 ^ (bits - 1) <= z < 2 ^ (bits - 1) -> wrap_signed bits z = z.
Proof.
  intros Hb Hz. unfold wrap_signed.
  assert (H2 : 2 ^ bits = 2 * 2 ^ (bits - 1)).
  { replace bits with (1 + (bits - 1)) at 1 by lia. rewrite Z.pow_add_r by lia. reflexivity. }
  rewrite Z.mod_small by lia. lia.
Qed.

(** Reading what was written: a value of the width comes back. *)
Lemma signed_le_roundtrip (k : nat) (v : Z) :
  (0 < k)%nat ->
  - 2 ^ (8 * Z.of_nat k - 1) <= v < 2 ^ (8 * Z.of_nat k - 1) ->
  wrap_signed (8 * Z.of_nat k) (le_unsigned (le_bytes k v)) = v.
Proof.
  intros Hk Hv. rewrite le_unsigned_le_bytes.
  assert (Hp : 0 < 2 ^ (8 * Z.of_nat k)) by (apply Z.pow_pos_nonneg; lia).
  unfold wrap_signed. rewrite Zplus_mod_idemp_l.
  fold (wrap_signed (8 * Z.of_nat k) v). apply wrap_signed_id; lia.
Qed.

(** Writing what was read: the bytes come back. *)
Lemma le_signed_roundtrip (bs : list byte) :
  bs <> [] ->
  le_bytes (length bs) (wrap_signed (8 * Z.of_nat (length bs)) (le_unsigned bs)) = bs.
Proof.
  intros Hne. etransitivity; [|apply le_bytes_le_unsigned].
  apply le_bytes_congr, wrap_signed_mod.
  destruct bs; [congruence | simpl length; lia].
Qed.

End CodecFacts.

(** ** Rows of an array *)

Module ArrayFacts.
Import Codec.

Section rows.
Context {A : Type}.
Implicit Types (l : list A) (rows : list (list A)).

Lemma reshape_join_same (c : nat) rows :
  Forall (fun r => length r = c) rows ->
  reshape (replicate (length rows) c) (mjoin rows) = rows.
Proof.
  induction 1 as [|r rows Hr _ IH]; simpl; [reflexivity|].
  subst c. rewrite take_app_length, drop_app_length, IH. reflexivity.
Qed.

Lemma Forall_reshape_length (n c : nat) l :
  length l = (n * c)%nat ->
  Forall (fun r => length r = c) (reshape (replicate n c) l).
Proof.
  revert l. induction n as [|n IH]; intros l Hl; simpl; constructor.
  - rewrite length_take. lia.
  - apply IH. rewrite length_drop. lia.
Qed.

Lemma join_reshape_same (n c : nat) l :
  length l = (n * c)%nat -> mjoin (reshape (replicate n c) l) = l.
Proof. intros Hl. apply join_reshape. rewrite sum_list_replicate. lia. Qed.

Lemma length_join_same (c : nat) rows :
  Forall (fun r => length r = c) rows -> length (mjoin rows) = (length rows * c)%nat.
Proof. induction 1; simpl; [reflexivity|]. rewrite length_app. lia. Qed.

Lemma chunks_join (c : nat) rows :
  c <> 0%nat -> Forall (fun r => length r = c) rows -> chunks c (mjoin rows) = rows.
Proof.
  intros Hc Hrows. unfold chunks.
  rewrite (length_join_same c) by assumption.
  rewrite Nat.div_mul by assumption. apply reshape_join_same, Hrows.
Qed.

Lemma join_chunks (c : nat) l :
  c <> 0%nat -> (length l mod c = 0)%nat -> mjoin (chunks c l) = l.
Proof.
  intros Hc Hm. apply join_reshape_same.
  pose proof (Nat.div_mod_eq (length l) c). lia.
Qed.

Lemma Forall_chunks_length (c : nat) l :
  c <> 0%nat -> (length l mod c = 0)%nat ->
  Forall (fun r => length r = c) (chunks c l).
Proof.
  intros Hc Hm. apply Forall_reshape_length.
  pose proof (Nat.div_mod_eq (length l) c). lia.
Qed.

Lemma length_chunks (c : nat) l : length (chunks c l) = (length l / c)%nat.
Proof. unfold chunks. rewrite length_reshape, length_replicate. reflexivity. Qed.

Lemma reshape_rows_join (c : nat) rows :
  c <> 0%nat -> Forall (fun r => length r = c) rows ->
  reshape_rows c (mjoin rows) = Some rows.
Proof.
  intros Hc Hrows. unfold reshape_rows.
  rewrite decide_True.
  - rewrite chunks_join by assumption. reflexivity.
  - split; [assumption|]. rewrite (length_join_same c) by assumption.
    apply Nat.Div0.mod_mul.
Qed.

Lemma reshape_2d_join (c : nat) rows :
  Forall (fun r => length r = c) rows ->
  reshape_2d (length rows) c (mjoin rows) = Some rows.
Proof.
  intros Hrows. unfold reshape_2d.
  rewrite decide_True by (apply length_join_same, Hrows).
  rewrite reshape_join_same by assumption. reflexivity.
Qed.

End rows.

Lemma chunks_bind {A B} (c : nat) (f : A -> list B) (l : list A) :
  c <> 0%nat -> (forall x, length (f x) = c) -> chunks c (l ≫= f) = f <$> l.
Proof.
  intros Hc Hf. rewrite <- (chunks_join c (f <$> l)); [|assumption|].
  - f_equal. rewrite list_join_bind, list_fmap_bind. reflexivity.
  - apply Forall_fmap, Forall_forall. intros v _. apply Hf.
Qed.

Lemma length_bind_same {A B} (c : nat) (f : A -> list B) (l : list A) :
  (forall x, length (f x) = c) -> length (l ≫= f) = (length l * c)%nat.
Proof.
  intros Hf. induction l as [|x l IH]; [reflexivity|].
  rewrite bind_cons, length_app, Hf, IH. simpl length. lia.
Qed.

(** An element of a flattened array of uniform rows. *)
Lemma lookup_join_same {A} (c : nat) (rows : list (list A)) (j i : nat) :
  Forall (fun r => length r = c) rows -> (i < c)%nat ->
  mjoin rows !! (j * c + i)%nat = rows !! j ≫= (fun r => r !! i).
Proof.
  intros Hrows Hi.
  destruct (mjoin rows !! (j * c + i)%nat) as [x|] eqn:E.
  - apply (join_lookup_Some_same_length' c) in E as (r & Hr & Hx); [|assumption..].
    rewrite Hr. simpl. congruence.
  - destruct (rows !! j) as [r|] eqn:Hr; [|reflexivity]. simpl.
    destruct (r !! i) as [x|] eqn:Hx; [|reflexivity].
    assert (mjoin rows !! (j * c + i)%nat = Some x) as E'.
    { apply (join_lookup_Some_same_length' c); eauto. }
    congruence.
Qed.

(** *** A sample encoding of fixed width, applied to a whole buffer *)

Section buffer.
Variable k : nat.
Variable interp : list byte -> Z.
Variable enc : Z -> list byte.
Hypothesis k_pos : k <> 0%nat.
Hypothesis enc_length : forall v, length (enc v) = k.

Lemma bind_enc_length (a : list Z) : length (a ≫= enc) = (length a * k)%nat.
Proof. apply length_bind_same, enc_length. Qed.

Lemma chunks_bind_enc (a : list Z) : chunks k (a ≫= enc) = enc <$> a.
Proof. apply chunks_bind; assumption. Qed.

Lemma frombuffer_bind_enc (a : list Z) :
  Forall (fun v => interp (enc v) = v) a ->
  frombuffer k interp (a ≫= enc) = Some a.
Proof.
  intros Ha. unfold frombuffer.
  rewrite decide_True by (rewrite bind_enc_length; apply Nat.Div0.mod_mul).
  rewrite chunks_bind_enc. f_equal.
  induction Ha as [|v a Hv _ IH]; [reflexivity|].
  rewrite !fmap_cons, Hv. f_equal. exact IH.
Qed.

Lemma bind_enc_frombuffer (data : list byte) (a : list Z) :
  (forall bs, length bs = k -> enc (interp bs) = bs) ->
  frombuffer k interp data = Some a -> a ≫= enc = data.
Proof.
  intros Hinv. unfold frombuffer. case_decide as Hm; [|discriminate].
  intros [= <-]. rewrite list_fmap_bind.
  rewrite <- (join_chunks k data) at 2 by assumption.
  pose proof (Forall_chunks_length k data k_pos Hm) as Hrows.
  revert Hrows. generalize (chunks k data) as rows.
  induction 1 as [|r rows Hr _ IH]; [reflexivity|].
  rewrite bind_cons. change (mjoin (r :: rows)) with (r ++ mjoin rows).
  simpl. rewrite Hinv, IH by assumption. reflexivity.
Qed.

Lemma frombuffer_length (data : list byte) (a : list Z) :
  frombuffer k interp data = Some a -> (length a * k)%nat = length data.
Proof.
  unfold frombuffer. case_decide as Hm; [|discriminate]. intros [= <-].
  rewrite length_fmap, length_chunks.
  pose proof (Nat.div_mod_eq (length data) k). lia.
Qed.

Lemma frombuffer_is_Some (data : list byte) :
  (length data mod k = 0)%nat -> is_Some (frombuffer k interp data).
Proof. intros Hm. unfold frombuffer. rewrite decide_True by assumption. eauto. Qed.

Lemma frombuffer_Forall (P : Z -> Prop) (data : list byte) (a : list Z) :
  (forall bs, length bs = k -> P (interp bs)) ->
  frombuffer k interp data = Some a -> Forall P a.
Proof.
  intros HP. unfold frombuffer. case_decide as Hm; [|discriminate]. intros [= <-].
  apply Forall_fmap. eapply Forall_impl; [apply Forall_chunks_length; assumption|].
  simpl. intros bs Hbs. apply HP, Hbs.
Qed.

End buffer.

End ArrayFacts.

(** ** The three sample widths *)

Module WidthFacts.
Import Codec FS Tp7 Container CodecFacts ArrayFacts.

Lemma land_pow2 (u n : Z) :
  0 <= n -> Z.land u (2 ^ n) = if Z.testbit u n then 2 ^ n else 0.
Proof.
  intros Hn. apply Z.bits_inj'. intros m Hm.
  rewrite Z.land_spec, Z.pow2_bits_eqb by assumption.
  destruct (Z.eqb_spec n m) as [->|Hne].
  - destruct (Z.testbit u m); simpl.
    + rewrite Z.pow2_bits_true by assumption. reflexivity.
    + rewrite Z.bits_0. reflexivity.
  - rewrite andb_false_r. destruct (Z.testbit u n).
    + rewrite Z.pow2_bits_false by assumption. reflexivity.
    + rewrite Z.bits_0. reflexivity.
Qed.

Lemma testbit_top (u n : Z) :
  0 <= n -> 0 <= u < 2 ^ (n + 1) -> Z.testbit u n = (2 ^ n <=? u).
Proof.
  intros Hn Hu. rewrite Z.pow_add_r in Hu by lia. change (2 ^ 1) with 2 in Hu.
  assert (Hp : 0 < 2 ^ n) by (apply Z.pow_pos_nonneg; lia).
  rewrite Z.testbit_eqb by assumption.
  destruct (Z.leb_spec (2 ^ n) u) as [Hle|Hlt].
  - assert (u / 2 ^ n = 1) as ->
      by (symmetry; apply (Z.div_unique u (2 ^ n) 1 (u - 2 ^ n)); lia).
    reflexivity.
  - rewrite Z.div_small by lia. reflexivity.
Qed.

Lemma lor_high_byte (u : Z) :
  0 <= u < 2 ^ 24 -> Z.lor u 0xFF000000 = u + 0xFF000000.
Proof.
  intros Hu. symmetry. apply Z.add_nocarry_lor.
  apply Z.bits_inj'. intros m Hm. rewrite Z.land_spec, Z.bits_0.
  destruct (Z.ltb_spec m 24) as [Hlt|Hge].
  - change 0xFF000000 with (Z.shiftl 255 24).
    rewrite Z.shiftl_spec_low by assumption. apply andb_false_r.
  - assert (Z.testbit u m = false) as ->; [|reflexivity].
    destruct (Z.eq_dec u 0) as [->|Hnz]; [apply Z.bits_0|].
    apply Z.bits_above_log2; [lia|].
    assert (Z.log2 u < 24) by (apply Z.log2_lt_pow2; lia). lia.
Qed.

(** On a 24-bit value, the OR with [0xFF000000] followed by the cast to
    [int32] is the two's complement reading of the 24 bits. *)
Lemma sign_extend_24_wrap (u : Z) :
  0 <= u < 2 ^ 24 -> sign_extend_24 u = wrap_signed 24 u.
Proof.
  intros Hu. unfold sign_extend_24.
  change 0x00800000 with (2 ^ 23). rewrite land_pow2 by lia.
  rewrite (testbit_top u 23) by (simpl; lia).
  unfold astype_int32, wrap_signed.
  change (2 ^ (24 - 1)) with 8388608. change (2 ^ (32 - 1)) with 2147483648.
  change (2 ^ 23) with 8388608 in *. change (2 ^ 24) with 16777216 in *.
  change (2 ^ 32) with 4294967296.
  destruct (Z.leb_spec 8388608 u) as [Hle|Hlt]; simpl negb; cbv iota.
  - rewrite lor_high_byte by (change (2 ^ 24) with 16777216; lia).
    change 0xFF000000 with 4278190080.
    replace (u + 4278190080 + 2147483648) with (u - 16777216 + 2147483648 + 1 * 4294967296) by lia.
    rewrite Z.mod_add by lia. rewrite Z.mod_small by lia.
    replace (u + 8388608) with (u - 8388608 + 1 * 16777216) by lia.
    rewrite Z.mod_add by lia. rewrite Z.mod_small by lia. lia.
  - rewrite !Z.mod_small by lia. lia.
Qed.

Lemma le_unsigned_pad (row : list byte) : le_unsigned (row ++ [x00]) = le_unsigned row.
Proof.
  induction row as [|b row IH]; simpl; [reflexivity|]. rewrite IH. reflexivity.
Qed.

Lemma read_24bit_audio_frombuffer (data : list byte) :
  read_24bit_audio data = frombuffer 3 (signed_le 3) data.
Proof.
  unfold read_24bit_audio, reshape_rows, frombuffer.
  destruct (decide (length data mod 3 = 0)%nat) as [Hm|Hm].
  - rewrite decide_True by (split; [lia | assumption]).
    f_equal. rewrite <- !list_fmap_compose.
    apply Forall_fmap_ext_1.
    eapply Forall_impl; [apply (Forall_chunks_length 3); [lia | assumption]|].
    simpl. intros row Hrow. rewrite le_unsigned_pad.
    apply sign_extend_24_wrap.
    pose proof (le_unsigned_range row) as Hr. rewrite Hrow in Hr. exact Hr.
  - rewrite decide_False by (intros [_ ?]; contradiction). reflexivity.
Qed.

Lemma mod_pow2_weaken (a b n m : Z) :
  0 <= n <= m -> a mod 2 ^ m = b mod 2 ^ m -> a mod 2 ^ n = b mod 2 ^ n.
Proof.
  intros Hnm H.
  assert (Hd : (2 ^ n | 2 ^ m)).
  { exists (2 ^ (m - n)). rewrite <- Z.pow_add_r by lia. f_equal. lia. }
  rewrite <- (Z.mod_mod_divide a _ _ Hd), <- (Z.mod_mod_divide b _ _ Hd), H.
  reflexivity.
Qed.

Lemma le_bytes_wrap (k : nat) (bits : Z) (v : Z) :
  8 * Z.of_nat k <= bits -> 0 < bits ->
  le_bytes k (wrap_signed bits v) = le_bytes k v.
Proof.
  intros Hk Hb. apply le_bytes_congr.
  apply (mod_pow2_weaken _ _ _ bits); [lia|]. apply wrap_signed_mod, Hb.
Qed.

Lemma write_24bit_audio_bind (a : list Z) : write_24bit_audio a = a ≫= le_bytes 3.
Proof.
  unfold write_24bit_audio. induction a as [|v a IH]; [reflexivity|].
  rewrite bind_cons, !fmap_cons.
  change (mjoin (?x :: ?l)) with (x ++ mjoin l). rewrite IH. f_equal.
  rewrite take_le_bytes by lia. apply le_bytes_wrap; lia.
Qed.

Lemma tobytes_int16_bind (a : list Z) : tobytes_int16 a = a ≫= le_bytes 2.
Proof.
  unfold tobytes_int16. induction a as [|v a IH]; [reflexivity|].
  rewrite !bind_cons, IH. f_equal. apply le_bytes_wrap; lia.
Qed.

Lemma tobytes_int32_bind (a : list Z) : tobytes_int32 a = a ≫= le_bytes 4.
Proof.
  unfold tobytes_int32. induction a as [|v a IH]; [reflexivity|].
  rewrite !bind_cons, IH. f_equal. apply le_bytes_wrap; lia.
Qed.

(** Both chains on the sample width, for a supported width [w]: [w]
    bytes per sample, two's complement, least significant byte first. *)
Lemma to_array_frombuffer (w : nat) (data : list byte) :
  supported w -> to_array w data = of_option (frombuffer w (signed_le w) data).
Proof.
  intros [-> | [-> | ->]]; unfold to_array; simpl; try reflexivity.
  rewrite read_24bit_audio_frombuffer. reflexivity.
Qed.

Lemma to_bytes_bind (w : nat) (a : list Z) :
  supported w -> to_bytes w a = a ≫= le_bytes w.
Proof.
  intros [-> | [-> | ->]]; unfold to_bytes; simpl.
  - apply tobytes_int16_bind.
  - apply write_24bit_audio_bind.
  - apply tobytes_int32_bind.
Qed.

Lemma supported_pos (w : nat) : supported w -> w <> 0%nat.
Proof. intros [-> | [-> | ->]]; lia. Qed.

Lemma to_array_to_bytes (w : nat) (a : list Z) :
  supported w -> Forall (in_range w) a -> to_array w (to_bytes w a) = Decoded a.
Proof.
  intros Hw Ha. pose proof (supported_pos w Hw) as Hpos.
  rewrite to_array_frombuffer, to_bytes_bind by assumption.
  rewrite (frombuffer_bind_enc w (signed_le w) (le_bytes w)); [reflexivity|assumption| |].
  - intros v. apply le_bytes_length.
  - eapply Forall_impl; [exact Ha|]. intros v Hv.
    apply signed_le_roundtrip; [lia | exact Hv].
Qed.

Lemma to_bytes_to_array (w : nat) (data : list byte) (a : list Z) :
  supported w -> to_array w data = Decoded a -> to_bytes w a = data.
Proof.
  intros Hw. pose proof (supported_pos w Hw) as Hpos.
  rewrite to_array_frombuffer, to_bytes_bind by assumption.
  destruct (frombuffer w (signed_le w) data) as [a'|] eqn:E; [|discriminate].
  intros [= <-].
  apply (bind_enc_frombuffer w (signed_le w) (le_bytes w) Hpos data a'); [|exact E].
  intros bs Hbs. unfold signed_le. rewrite <- Hbs. apply le_signed_roundtrip.
  intros ->. simpl in Hbs. lia.
Qed.

Lemma to_array_length (w : nat) (data : list byte) (a : list Z) :
  supported w -> to_array w data = Decoded a -> (length a * w)%nat = length data.
Proof.
  intros Hw. rewrite to_array_frombuffer by assumption.
  destruct (frombuffer w (signed_le w) data) as [a'|] eqn:E; [|discriminate].
  intros [= <-]. eapply frombuffer_length; [apply supported_pos, Hw | exact E].
Qed.

Lemma to_array_in_range (w : nat) (data : list byte) (a : list Z) :
  supported w -> to_array w data = Decoded a -> Forall (in_range w) a.
Proof.
  intros Hw. pose proof (supported_pos w Hw) as Hpos.
  rewrite to_array_frombuffer by assumption.
  destruct (frombuffer w (signed_le w) data) as [a'|] eqn:E; [|discriminate].
  intros [= <-].
  apply (frombuffer_Forall w (signed_le w) Hpos (in_range w) data a'); [|exact E].
  intros bs _. apply wrap_signed_range. lia.
Qed.

Lemma to_array_Decoded (w : nat) (data : list byte) :
  supported w -> (length data mod w = 0)%nat -> exists a, to_array w data = Decoded a.
Proof.
  intros Hw Hm. rewrite to_array_frombuffer by assumption.
  destruct (frombuffer_is_Some w (signed_le w) data Hm) as [a ->]. eauto.
Qed.

End WidthFacts.

(** ** The 24-bit conversions *)

Section sample_24.
Import Codec FS Tp7 Container CodecFacts ArrayFacts WidthFacts.

Lemma value_24_range (b0 b1 b2 : byte) : 0 <= value_24 b0 b1 b2 < 2 ^ 24.
Proof.
  unfold value_24. pose proof (byte_val_range b0). pose proof (byte_val_range b1).
  pose proof (byte_val_range b2).
  change (2 ^ 8) with 256. change (2 ^ 16) with 65536. change (2 ^ 24) with 16777216. lia.
Qed.

Lemma le_unsigned_3 (b0 b1 b2 : byte) : le_unsigned [b0; b1; b2] = value_24 b0 b1 b2.
Proof.
  unfold value_24. simpl. change (2 ^ 8) with 256. change (2 ^ 16) with 65536. lia.
Qed.

Lemma sign_extended_wrap (b0 b1 b2 : byte) :
  sign_extended b0 b1 b2 = wrap_signed 24 (value_24 b0 b1 b2).
Proof.
  unfold sign_extended. pose proof (value_24_range b0 b1 b2) as Hv.
  set (v := value_24 b0 b1 b2) in *. cbv zeta.
  change 0x800000 with (2 ^ 23). rewrite land_pow2 by lia.
  rewrite (testbit_top v 23) by (simpl; lia).
  unfold wrap_signed, as_signed_32.
  change (2 ^ (24 - 1)) with 8388608. change (2 ^ 31) with 2147483648.
  change (2 ^ 23) with 8388608 in *. change (2 ^ 24) with 16777216 in *.
  change (2 ^ 32) with 4294967296.
  destruct (Z.leb_spec 8388608 v) as [Hle|Hlt]; simpl negb; cbv iota.
  - rewrite lor_high_byte by (change (2 ^ 24) with 16777216; lia).
    change 0xFF000000 with 4278190080.
    destruct (Z.ltb_spec (v + 4278190080) 2147483648) as [Hc|Hc]; [lia|].
    replace (v + 8388608) with (v - 8388608 + 1 * 16777216) by lia.
    rewrite Z.mod_add by lia. rewrite Z.mod_small by lia. lia.
  - rewrite Z.mod_small by lia. lia.
Qed.

Lemma read_24bit_audio_groups (groups : list (byte * byte * byte)) :
  read_24bit_audio (groups ≫= (fun '(b0, b1, b2) => [b0; b1; b2]))
  = Some ((fun '(b0, b1, b2) => sign_extended b0 b1 b2) <$> groups).
Proof.
  rewrite read_24bit_audio_frombuffer. unfold frombuffer.
  rewrite decide_True.
  - rewrite (chunks_bind 3) by (lia || intros [[? ?] ?]; reflexivity).
    rewrite <- list_fmap_compose. f_equal. apply list_fmap_ext.
    intros _ [[b0 b1] b2] _. simpl. unfold signed_le.
    rewrite le_unsigned_3, sign_extended_wrap. reflexivity.
  - rewrite (length_bind_same 3) by (intros [[? ?] ?]; reflexivity).
    apply Nat.Div0.mod_mul.
Qed.

Lemma shiftr_24_wrap (v : Z) :
  0 <= v < 2 ^ 24 ->
  Z.shiftr (wrap_signed 24 v) 24 = if 2 ^ 23 <=? v then -1 else 0.
Proof.
  intros Hv. rewrite Z.shiftr_div_pow2 by lia. unfold wrap_signed.
  change (2 ^ (24 - 1)) with 8388608. change (2 ^ 23) with 8388608.
  change (2 ^ 24) with 16777216 in *.
  destruct (Z.leb_spec 8388608 v) as [Hle|Hlt].
  - replace (v + 8388608) with (v - 8388608 + 1 * 16777216) by lia.
    rewrite Z.mod_add by lia. rewrite Z.mod_small by lia.
    symmetry. apply (Z.div_unique _ _ _ v). { lia. } lia.
  - rewrite Z.mod_small by lia. apply Z.div_small. lia.
Qed.

Lemma byte_val_le_bytes_3 (v : Z) : byte_val <$> le_bytes 3 v = low_three_bytes v.
Proof.
  unfold low_three_bytes. simpl. rewrite !byte_val_to_uint8.
  change 0xFF with (Z.ones 8). rewrite !Z.land_ones by lia.
  rewrite !Z.shiftr_div_pow2 by lia. change (2 ^ 8) with 256.
  rewrite Z.div_div by lia. reflexivity.
Qed.

End sample_24.

(** C1: reading 24-bit samples sign-extends every little-endian group of
    three bytes to a signed 32-bit integer.  When bit 23 of the 24-bit
    value is set the result is that value OR [0xFF000000] read as a signed
    32-bit integer, and its bits from 24 up are all ones; otherwise the
    result is the 24-bit value and those bits are zero.  Either way it is
    the two's complement reading of the 24 bits.  Bytes 00 00 00 give 0,
    FF FF 7F give 8388607 and 00 00 80 give -8388608. *)
Theorem read_24bit_audio_sign_extends (b0 b1 b2 : byte) (groups : list (byte * byte * byte)) :
  let v := Container.value_24 b0 b1 b2 in
  let bit_23 := negb (Z.land v 0x800000 =? 0) in
  let r := if bit_23 then Container.as_signed_32 (Z.lor v 0xFF000000) else v in
  Codec.read_24bit_audio [b0; b1; b2] = Some [r]
  ∧ Z.shiftr r 24 = (if bit_23 then -1 else 0)
  ∧ - 8388608 <= r <= 8388607
  ∧ r mod 2 ^ 24 = v
  ∧ Codec.read_24bit_audio (groups ≫= (fun '(b0, b1, b2) => [b0; b1; b2]))
    = Some ((fun '(b0, b1, b2) => Container.sign_extended b0 b1 b2) <$> groups)
  ∧ Codec.read_24bit_audio [x00; x00; x00] = Some [0]
  ∧ Codec.read_24bit_audio [xff; xff; x7f] = Some [8388607]
  ∧ Codec.read_24bit_audio [x00; x00; x80] = Some [-8388608].
Proof.
  intros v bit_23 r.
  assert (Hr : r = Codec.wrap_signed 24 v).
  { exact (sign_extended_wrap b0 b1 b2). }
  pose proof (value_24_range b0 b1 b2) as Hv. fold v in Hv.
  assert (Hbit : bit_23 = (2 ^ 23 <=? v)).
  { unfold bit_23. change 0x800000 with (2 ^ 23).
    rewrite WidthFacts.land_pow2 by lia.
    rewrite (WidthFacts.testbit_top v 23) by (simpl; lia).
    destruct (2 ^ 23 <=? v); reflexivity. }
  split; [|split; [|split; [|split; [|split]]]].
  - apply (read_24bit_audio_groups [(b0, b1, b2)]).
  - rewrite Hr, Hbit. apply shiftr_24_wrap, Hv.
  - rewrite Hr. pose proof (CodecFacts.wrap_signed_range 24 v ltac:(lia)) as H.
    change (2 ^ (24 - 1)) with 8388608 in H. lia.
  - rewrite Hr, CodecFacts.wrap_signed_mod by lia. apply Z.mod_small, Hv.
  - apply read_24bit_audio_groups.
  - repeat split; vm_compute; reflexivity.
Qed.

(** C2: the 24-bit write conversion emits exactly the low three bytes of
    every sample, least significant first, and discards the top byte,
    whatever the sample ([0x12345678] is written as [78 56 34], and
    8388608 as [00 00 80]); and it is the inverse of the 24-bit read
    conversion: samples in [-8388608, 8388607] come back from the bytes
    written for them, and a buffer of three-byte groups comes back from
    the samples read from it. *)
Theorem write_24bit_audio_inverts_read (a : list Z) (data : list byte) :
  Codec.byte_val <$> Codec.write_24bit_audio a = a ≫= Container.low_three_bytes
  ∧ length (Codec.write_24bit_audio a) = (3 * length a)%nat
  ∧ Codec.write_24bit_audio [305419896; -2023406815; 8388608]
    = [x78; x56; x34; x21; x43; x65; x00; x00; x80]
  ∧ (Forall (fun v => - 8388608 <= v <= 8388607) a ->
     Codec.read_24bit_audio (Codec.write_24bit_audio a) = Some a)
  ∧ ((length data mod 3 = 0)%nat ->
     exists a', Codec.read_24bit_audio data = Some a'
       ∧ Codec.write_24bit_audio a' = data).
Proof.
  split; [|split; [|split; [|split]]].
  - rewrite WidthFacts.write_24bit_audio_bind.
    induction a as [|v a IH]; [reflexivity|].
    rewrite !bind_cons, fmap_app, IH, byte_val_le_bytes_3. reflexivity.
  - rewrite WidthFacts.write_24bit_audio_bind.
    rewrite (ArrayFacts.length_bind_same 3) by (intros; apply CodecFacts.le_bytes_length).
    lia.
  - vm_compute. reflexivity.
  - intros Ha. rewrite WidthFacts.write_24bit_audio_bind.
    rewrite WidthFacts.read_24bit_audio_frombuffer.
    apply ArrayFacts.frombuffer_bind_enc; [lia | intros; apply CodecFacts.le_bytes_length |].
    eapply Forall_impl; [exact Ha|]. intros v Hv.
    apply (CodecFacts.signed_le_roundtrip 3); [lia|].
    cbv beta in Hv. change (2 ^ (8 * Z.of_nat 3 - 1)) with 8388608. lia.
  - intros Hdata. rewrite WidthFacts.read_24bit_audio_frombuffer.
    destruct (ArrayFacts.frombuffer_is_Some 3 (Codec.signed_le 3) data Hdata) as [a' Ha'].
    exists a'. split; [exact Ha'|].
    rewrite WidthFacts.write_24bit_audio_bind.
    apply (ArrayFacts.bind_enc_frombuffer 3 (Codec.signed_le 3) (Codec.le_bytes 3));
      [lia| |exact Ha'].
    intros bs Hbs. unfold Codec.signed_le. rewrite <- Hbs.
    apply CodecFacts.le_signed_roundtrip. intros ->. discriminate.
Qed.

Lemma write_24bit_audio_inverts_read_witness :
  Codec.byte_val <$> Codec.write_24bit_audio [305419896; -1]
  = [305419896; -1] ≫= Container.low_three_bytes
  ∧ Codec.read_24bit_audio (Codec.write_24bit_audio [-8388608; 8388607; -1; 0; 4660])
    = Some [-8388608; 8388607; -1; 0; 4660]
  ∧ exists a', Codec.read_24bit_audio [x00; x00; x80; xff; xff; x7f] = Some a'
      ∧ Codec.write_24bit_audio a' = [x00; x00; x80; xff; xff; x7f].
Proof.
  split; [|split].
  - exact (proj1 (write_24bit_audio_inverts_read [305419896; -1] [])).
  - apply (proj1 (proj2 (proj2 (proj2 (write_24bit_audio_inverts_read
                                          [-8388608; 8388607; -1; 0; 4660] []))))).
    repeat constructor; lia.
  - apply (proj2 (proj2 (proj2 (proj2 (write_24bit_audio_inverts_read
                                          [] [x00; x00; x80; xff; xff; x7f]))))).
    reflexivity.
Defined.

(** ** The file system *)

Module FSFacts.
Import Codec FS Tp7 Container.

Lemma node_at_insert (s : gmap path node) (p q : path) (n : node) :
  p <> [] ->
  node_at (<[p := n]> s) q = if decide (p = q) then Some n else node_at s q.
Proof.
  intros Hp. destruct q as [|c q]; simpl.
  - rewrite decide_False by assumption. reflexivity.
  - apply lookup_insert.
Qed.

Lemma exists_node_at (s : gmap path node) (p : path) :
  exists_ s p = true <-> is_Some (node_at s p).
Proof.
  unfold exists_. destruct (node_at s p); split; intros H; eauto.
  - discriminate.
  - destruct H; discriminate.
Qed.

Lemma container_at_Some (s : gmap path node) (p : path) (w : wav) :
  container_at s p = Some w <-> node_at s p = Some (File (Wav w)).
Proof.
  unfold container_at. destruct (node_at s p) as [[[w'|]|]|]; split; congruence.
Qed.

Lemma wave_open_rb_inr (s : gmap path node) (p : path) (w : wav) :
  wave_open_rb s p = inr w <->
  container_at s p = Some w ∧ nchannels w <> 0%nat ∧ sampwidth w <> 0%nat.
Proof.
  unfold wave_open_rb, container_at.
  destruct (node_at s p) as [[[w'|]|]|]; try (split; [discriminate|intros [? _]; discriminate]).
  case_decide as Hz; split.
  - discriminate.
  - intros ([= ->] & ? & ?). lia.
  - intros [= ->]. split; [reflexivity|]. lia.
  - intros ([= ->] & _). reflexivity.
Qed.

Lemma parent_track_file (d : path) (t : nat) : parent (track_file d t) = d.
Proof. unfold parent, track_file. apply removelast_last. Qed.

Lemma track_file_not_nil (d : path) (t : nat) : track_file d t <> [].
Proof. unfold track_file. destruct d; discriminate. Qed.

Lemma track_file_not_dir (d : path) (t : nat) : track_file d t <> d.
Proof.
  unfold track_file. intros H. apply (f_equal length) in H.
  rewrite length_app in H. simpl in H. lia.
Qed.

Lemma track_file_inj (d : path) (t t' : nat) :
  (t < 6)%nat -> (t' < 6)%nat -> track_file d t = track_file d t' -> t = t'.
Proof.
  intros Ht Ht' H. unfold track_file in H. apply app_inv_head in H.
  do 6 (destruct t as [|t]; [do 6 (destruct t' as [|t']; [first [reflexivity | discriminate H]|]); lia|]).
  lia.
Qed.

(** *** Directory creation *)

Lemma mkdir_exist_ok_inr (s s1 : gmap path node) (d : path) :
  mkdir_exist_ok s d = inr s1 ->
  node_at s1 d = Some Dir
  ∧ (forall q, q <> d -> node_at s1 q = node_at s q)
  ∧ (forall q, node_at s q = Some Dir -> node_at s1 q = Some Dir).
Proof.
  unfold mkdir_exist_ok. destruct (node_at s d) as [[c|]|] eqn:Hd; [discriminate| |].
  - intros [= <-]. auto.
  - destruct (node_at s (parent d)) as [[c|]|]; try discriminate. intros [= <-].
    assert (d <> []) by (intros ->; discriminate).
    split; [|split].
    + rewrite node_at_insert, decide_True by auto. reflexivity.
    + intros q Hq. rewrite node_at_insert, decide_False by auto. reflexivity.
    + intros q Hq. rewrite node_at_insert by assumption.
      case_decide; [reflexivity | assumption].
Qed.

(** Creating the directory neither adds nor changes a file. *)
Lemma mkdir_exist_ok_files (s s1 : gmap path node) (d q : path) (c : content) :
  mkdir_exist_ok s d = inr s1 ->
  node_at s1 q = Some (File c) <-> node_at s q = Some (File c).
Proof.
  intros H. destruct (mkdir_exist_ok_inr _ _ _ H) as (Hd & Hother & _).
  destruct (decide (q = d)) as [->|Hne].
  - rewrite Hd. split; [discriminate|]. intros Hq.
    unfold mkdir_exist_ok in H. rewrite Hq in H. discriminate.
  - rewrite Hother by assumption. reflexivity.
Qed.

Lemma mkdir_exist_ok_open (s s1 : gmap path node) (d p : path) :
  mkdir_exist_ok s d = inr s1 -> node_at s p <> None ->
  (exists w, wave_open_rb s p = inr w ∧ wave_open_rb s1 p = inr w)
  ∨ (exists x x', wave_open_rb s p = inl x ∧ wave_open_rb s1 p = inl x').
Proof.
  intros H Hp. destruct (mkdir_exist_ok_inr _ _ _ H) as (Hd & Hother & Hdir).
  unfold wave_open_rb.
  destruct (node_at s p) as [[c|]|] eqn:Hq; [| |congruence].
  - apply (mkdir_exist_ok_files _ _ _ p c H) in Hq. rewrite Hq.
    destruct c as [w|]; [|right; eauto]. case_decide; [right|left]; eauto.
  - rewrite (Hdir _ Hq). right; eauto.
Qed.

(** *** Writing a container *)

Lemma wave_write_inr (s s' : gmap path node) (p : path) (nch width : nat) (rate : N)
    (data : list byte) :
  wave_write s p nch width rate data = inr s' ->
  p <> [] ∧ node_at s p <> Some Dir ∧ node_at s (parent p) = Some Dir
  ∧ s' = <[p := File (Wav (Wave nch width rate data))]> s.
Proof.
  unfold wave_write. intros H.
  assert (node_at s p <> Some Dir) as Hnd.
  { intros E. rewrite E in H. discriminate. }
  assert (p <> []) as Hp by (intros ->; apply Hnd; reflexivity).
  assert (match node_at s (parent p) with
          | None => inl FileNotFoundError
          | Some (File _) => inl NotADirectoryError
          | Some Dir =>
              if decide (nch = 0%nat ∨ width = 0%nat ∨ (4 < width)%nat ∨ rate = 0%N)
              then inl WaveError
              else inr (<[p := File (Wav (Wave nch width rate data))]> s)
          end = inr s') as H'.
  { destruct (node_at s p) as [[c|]|]; [exact H | congruence | exact H]. }
  destruct (node_at s (parent p)) as [[c|]|]; try discriminate.
  case_decide; [discriminate|]. injection H' as <-. auto.
Qed.

Lemma wave_write_ok (s : gmap path node) (p : path) (nch width : nat) (rate : N)
    (data : list byte) :
  node_at s p <> Some Dir -> node_at s (parent p) = Some Dir ->
  nch <> 0%nat -> (1 <= width <= 4)%nat -> rate <> 0%N ->
  wave_write s p nch width rate data
  = inr (<[p := File (Wav (Wave nch width rate data))]> s).
Proof.
  intros Hnd Hpar Hn Hw Hr. unfold wave_write. rewrite Hpar.
  rewrite decide_False by lia.
  destruct (node_at s p) as [[c|]|]; [reflexivity | congruence | reflexivity].
Qed.

End FSFacts.

(** ** Containers and their samples *)

Module ContainerFacts.
Import Codec FS Tp7 Container CodecFacts ArrayFacts WidthFacts FSFacts.

Lemma length_readframes (w : wav) :
  length (readframes w (getnframes w)) = (getnframes w * framesize w)%nat.
Proof.
  unfold readframes, getnframes. rewrite length_take.
  pose proof (Nat.Div0.mul_div_le (length (frames w)) (framesize w)). lia.
Qed.

(** The array a readable container of a supported width decodes to. *)
Lemma container_rows (w : wav) :
  supported (sampwidth w) -> nchannels w <> 0%nat ->
  exists rows,
    to_array (sampwidth w) (readframes w (getnframes w)) = Decoded (mjoin rows)
    ∧ length rows = getnframes w
    ∧ Forall (fun r => length r = nchannels w) rows
    ∧ Forall (in_range (sampwidth w)) (mjoin rows).
Proof.
  intros Hw Hn. pose proof (supported_pos _ Hw) as Hpos.
  destruct (to_array_Decoded (sampwidth w) (readframes w (getnframes w)) Hw) as [a Ha].
  { rewrite length_readframes. unfold framesize.
    rewrite Nat.mul_assoc. apply Nat.Div0.mod_mul. }
  pose proof (to_array_length _ _ _ Hw Ha) as Hlen.
  rewrite length_readframes in Hlen. unfold framesize in Hlen.
  assert (length a = (getnframes w * nchannels w)%nat) as Hla by nia.
  exists (reshape (replicate (getnframes w) (nchannels w)) a).
  rewrite join_reshape_same by assumption.
  split; [exact Ha|]. split; [|split].
  - rewrite length_reshape, length_replicate. reflexivity.
  - apply Forall_reshape_length, Hla.
  - eapply to_array_in_range; eassumption.
Qed.

Lemma samples_rows (w : wav) (rows : list (list Z)) :
  to_array (sampwidth w) (readframes w (getnframes w)) = Decoded (mjoin rows) ->
  Forall (fun r => length r = nchannels w) rows ->
  forall f c, (c < nchannels w)%nat ->
    sample_at w f c = rows !! f ≫= (fun r => r !! c).
Proof.
  intros Ha Hrows f c Hc. unfold sample_at, samples.
  rewrite decide_True by assumption. rewrite Ha. simpl.
  apply lookup_join_same; assumption.
Qed.

(** The container written for an array. *)
Lemma written_container (nch width : nat) (rate : N) (rows : list (list Z)) :
  supported width -> nch <> 0%nat ->
  Forall (fun r => length r = nch) rows ->
  Forall (in_range width) (mjoin rows) ->
  let w := Wave nch width rate (to_bytes width (mjoin rows)) in
  getnframes w = length rows
  ∧ to_array width (readframes w (getnframes w)) = Decoded (mjoin rows).
Proof.
  intros Hw Hn Hrows Hrange w. pose proof (supported_pos _ Hw) as Hpos.
  assert (length (to_bytes width (mjoin rows)) = (length rows * (nch * width))%nat) as Hlen.
  { rewrite to_bytes_bind by assumption.
    rewrite (length_bind_same width) by (intros; apply le_bytes_length).
    rewrite (length_join_same nch) by assumption. lia. }
  assert (getnframes w = length rows) as Hnf.
  { unfold getnframes, framesize. simpl. rewrite Hlen. apply Nat.div_mul. lia. }
  split; [exact Hnf|].
  unfold readframes. rewrite Hnf. unfold framesize. simpl.
  rewrite take_ge by lia. apply to_array_to_bytes; assumption.
Qed.

(** *** Column selection *)

Ltac destruct_row r H :=
  do 12 (destruct r as [|? r]; [simpl in H; lia|]);
  destruct r; [|simpl in H; lia].

Lemma select_row (row : list Z) (t : nat) :
  length row = 12%nat -> (t < 6)%nat ->
  mapM (fun c => row !! c) [(t * 2)%nat; (t * 2 + 1)%nat] = Some (take 2 (drop (t * 2) row)).
Proof.
  intros Hrow Ht. destruct_row row Hrow.
  do 6 (destruct t as [|t]; [reflexivity|]). lia.
Qed.

Lemma select_columns_stereo (a : list (list Z)) (t : nat) :
  Forall (fun r => length r = 12%nat) a -> (t < 6)%nat ->
  select_columns [(t * 2)%nat; (t * 2 + 1)%nat] a = Some (stereo_pair t a).
Proof.
  intros Ha Ht. unfold select_columns, stereo_pair.
  apply mapM_Some, Forall2_fmap_r, Forall_Forall2_diag.
  eapply Forall_impl; [exact Ha|]. simpl. intros row Hrow.
  apply select_row; assumption.
Qed.

Lemma stereo_pair_rows (a : list (list Z)) (t : nat) :
  Forall (fun r => length r = 12%nat) a -> (t < 6)%nat ->
  Forall (fun r => length r = 2%nat) (stereo_pair t a).
Proof.
  intros Ha Ht. unfold stereo_pair. apply Forall_fmap.
  eapply Forall_impl; [exact Ha|]. simpl. intros row Hrow.
  rewrite length_take, length_drop. lia.
Qed.

Lemma length_stereo_pair (a : list (list Z)) (t : nat) :
  length (stereo_pair t a) = length a.
Proof. unfold stereo_pair. apply length_fmap. Qed.

Lemma lookup_stereo_pair (a : list (list Z)) (t f c : nat) :
  (c < 2)%nat ->
  stereo_pair t a !! f ≫= (fun r => r !! c) = a !! f ≫= (fun r => r !! (t * 2 + c)%nat).
Proof.
  intros Hc. unfold stereo_pair. rewrite list_lookup_fmap.
  destruct (a !! f) as [row|]; [|reflexivity]. simpl.
  rewrite lookup_take, decide_True by assumption. apply lookup_drop.
Qed.

Lemma stereo_pair_in_range (width : nat) (a : list (list Z)) (t : nat) :
  Forall (in_range width) (mjoin a) -> Forall (in_range width) (mjoin (stereo_pair t a)).
Proof.
  intros Ha. apply Forall_join. unfold stereo_pair. apply Forall_fmap.
  apply Forall_forall. intros row Hrow. simpl.
  apply Forall_forall. intros v Hv.
  rewrite Forall_forall in Ha. apply Ha.
  apply list_elem_of_join. exists row. split; [|assumption].
  apply elem_of_take in Hv as (i & Hv & _).
  rewrite lookup_drop in Hv. eapply list_elem_of_lookup_2, Hv.
Qed.

End ContainerFacts.

(** ** The demultiplexer *)

Module ExportFacts.
Import Codec FS Tp7 Container CodecFacts ArrayFacts WidthFacts FSFacts ContainerFacts.

(** The loop ends in success or in a caught exception, never replaces a
    directory, and touches nothing but the track files. *)
Lemma export_tracks_outcome (d : path) (width : nat) (rate : N) (a : list (list Z))
    (ts : list nat) (s : gmap path node) :
  let r := export_tracks s d width rate a ts in
  (r.2 = Success ∨ r.2 = Failure IOError)
  ∧ (forall q, node_at s q = Some Dir -> node_at r.1 q = Some Dir)
  ∧ (forall q, (forall t, t ∈ ts -> q <> track_file d t) -> node_at r.1 q = node_at s q).
Proof.
  revert s. induction ts as [|t ts IH]; intros s; simpl.
  - auto.
  - destruct (select_columns _ a) as [st|]; [|simpl; auto].
    destruct (wave_write s (track_file d t) 2 width rate _) as [x|s'] eqn:Hw; [simpl; auto|].
    apply wave_write_inr in Hw as (Hne & Hnd & _ & ->).
    destruct (IH (<[track_file d t := File (Wav (Wave 2 width rate (to_bytes width (mjoin st))))]> s))
      as (Hres & Hdir & Hother).
    split; [exact Hres|]. split.
    + intros q Hq. apply Hdir. rewrite node_at_insert by assumption.
      case_decide; [congruence | assumption].
    + intros q Hq. rewrite Hother.
      * rewrite node_at_insert by assumption.
        rewrite decide_False; [reflexivity|].
        intros E. apply (Hq t); [left | auto].
      * intros t' Ht'. apply Hq. right. assumption.
Qed.

(** When every track file can be written, the loop writes them all. *)
Lemma export_tracks_ok (d : path) (width : nat) (rate : N) (a : list (list Z))
    (ts : list nat) (s : gmap path node) :
  Forall (fun r => length r = 12%nat) a ->
  Forall (fun t => (t < 6)%nat) ts -> NoDup ts ->
  (1 <= width <= 4)%nat -> rate <> 0%N ->
  node_at s d = Some Dir ->
  (forall t, t ∈ ts -> node_at s (track_file d t) <> Some Dir) ->
  exists s', export_tracks s d width rate a ts = (s', Success)
    ∧ (forall t, t ∈ ts ->
         container_at s' (track_file d t)
         = Some (Wave 2 width rate (to_bytes width (mjoin (stereo_pair t a))))).
Proof.
  intros Ha Hts Hnd Hw Hr. revert s.
  induction ts as [|t ts IH]; intros s Hd Hfree; simpl.
  - exists s. split; [reflexivity|]. intros t Ht. inversion Ht.
  - apply Forall_cons in Hts as [Ht Hts]. apply NoDup_cons in Hnd as [Hnotin Hnd].
    rewrite select_columns_stereo by assumption.
    rewrite wave_write_ok; try assumption; try lia.
    2:{ apply Hfree. left. }
    2:{ rewrite parent_track_file. exact Hd. }
    set (s1 := <[track_file d t := _]> s).
    destruct (IH Hts Hnd s1) as (s' & Hrun & Htracks).
    + unfold s1. rewrite node_at_insert by apply track_file_not_nil.
      rewrite decide_False by apply track_file_not_dir. exact Hd.
    + intros t' Ht'. unfold s1. rewrite node_at_insert by apply track_file_not_nil.
      case_decide; [discriminate|]. apply Hfree. right. exact Ht'.
    + exists s'. split; [exact Hrun|]. intros t' Ht'.
      apply elem_of_cons in Ht' as [->|Ht']; [|apply Htracks, Ht'].
      pose proof (export_tracks_outcome d width rate a ts s1) as (_ & _ & Hother).
      rewrite Hrun in Hother. simpl in Hother.
      apply container_at_Some. rewrite Hother.
      * unfold s1. rewrite node_at_insert by apply track_file_not_nil.
        rewrite decide_True by reflexivity. reflexivity.
      * intros t' Ht' E. apply track_file_inj in E; [|assumption|].
        -- subst t'. contradiction.
        -- rewrite Forall_forall in Hts. apply Hts, Ht'.
Qed.

(** The steps of [export_multitrack] up to the channel check. *)
Lemma export_multitrack_opened (s s1 : gmap path node) (p : path) (od : option path) (w : wav) :
  wave_open_rb s p = inr w ->
  mkdir_exist_ok s (resolve_output_dir p od) = inr s1 ->
  exists_ s p = true ∧ wave_open_rb s1 p = inr w.
Proof.
  intros Hopen Hmk.
  apply wave_open_rb_inr in Hopen as (Hc & Hn & Hw).
  apply container_at_Some in Hc.
  split.
  - apply exists_node_at. rewrite Hc. eauto.
  - apply wave_open_rb_inr. split; [|auto]. apply container_at_Some.
    apply (mkdir_exist_ok_files _ _ _ _ _ Hmk). exact Hc.
Qed.

Lemma export_multitrack_not_12 (s s1 : gmap path node) (p : path) (od : option path) (w : wav) :
  wave_open_rb s p = inr w -> nchannels w <> 12%nat ->
  mkdir_exist_ok s (resolve_output_dir p od) = inr s1 ->
  export_multitrack s p od = (s1, Failure ChannelCountMismatch).
Proof.
  intros Hopen Hn Hmk.
  destruct (export_multitrack_opened _ _ _ _ _ Hopen Hmk) as [Hex Hopen1].
  unfold export_multitrack. rewrite Hex. simpl negb. cbv iota.
  rewrite Hmk, Hopen1. rewrite decide_True by assumption. reflexivity.
Qed.

(** After a successful [mkdir] the directory is there when the call ends. *)
Lemma export_multitrack_keeps_dir (s s1 : gmap path node) (p : path) (od : option path) :
  exists_ s p = true ->
  mkdir_exist_ok s (resolve_output_dir p od) = inr s1 ->
  node_at (export_multitrack s p od).1 (resolve_output_dir p od) = Some Dir
  ∧ (forall e, (export_multitrack s p od).2 = Failure e -> e <> IOError ->
       (export_multitrack s p od).1 = s1).
Proof.
  intros Hex Hmk. destruct (mkdir_exist_ok_inr _ _ _ Hmk) as (Hd & _ & _).
  unfold export_multitrack. rewrite Hex. simpl negb. cbv iota. rewrite Hmk.
  destruct (wave_open_rb s1 p) as [x|w]; [cbn [fst snd]; split; [assumption|congruence]|].
  case_decide; [cbn [fst snd]; split; [assumption|reflexivity]|].
  case_decide; [cbn [fst snd]; split; [assumption|congruence]|].
  destruct (to_array _ _) as [a| |]; cbn [fst snd];
    try (split; [assumption | intros; reflexivity || congruence]).
  destruct (reshape_2d _ _ a) as [rows|]; cbn [fst snd]; [|split; [assumption|congruence]].
  pose proof (export_tracks_outcome (resolve_output_dir p od) (sampwidth w)
                (framerate w) rows (seq 0 6) s1) as (Hres & Hdir & _).
  split; [apply Hdir, Hd|].
  intros e He Hne. destruct Hres as [Hres|Hres]; rewrite Hres in He; congruence.
Qed.

(** The whole of a successful export. *)
Lemma export_multitrack_ok (s s1 : gmap path node) (p : path) (od : option path) (w : wav) :
  let d := resolve_output_dir p od in
  wave_open_rb s p = inr w -> nchannels w = 12%nat ->
  supported (sampwidth w) -> framerate w <> 0%N ->
  mkdir_exist_ok s d = inr s1 ->
  (forall t, (t < 6)%nat -> node_at s (track_file d t) <> Some Dir) ->
  exists s2 rows,
    export_multitrack s p od = (s2, Success)
    ∧ to_array (sampwidth w) (readframes w (getnframes w)) = Decoded (mjoin rows)
    ∧ length rows = getnframes w
    ∧ Forall (fun r => length r = 12%nat) rows
    ∧ Forall (in_range (sampwidth w)) (mjoin rows)
    ∧ (forall t, (t < 6)%nat ->
         container_at s2 (track_file d t)
         = Some (Wave 2 (sampwidth w) (framerate w)
                   (to_bytes (sampwidth w) (mjoin (stereo_pair t rows))))).
Proof.
  intros d Hopen Hn Hw Hr Hmk Hfree.
  destruct (export_multitrack_opened _ _ _ _ _ Hopen Hmk) as [Hex Hopen1].
  destruct (mkdir_exist_ok_inr _ _ _ Hmk) as (Hd & Hother & _).
  destruct (container_rows w Hw ltac:(lia)) as (rows & Ha & Hlen & Hrows & Hrange).
  rewrite Hn in Hrows.
  destruct (export_tracks_ok d (sampwidth w) (framerate w) rows (seq 0 6) s1)
    as (s2 & Hrun & Htracks); try assumption.
  - apply Forall_forall. intros t Ht. apply elem_of_seq in Ht. lia.
  - apply NoDup_seq.
  - destruct Hw as [-> | [-> | ->]]; lia.
  - intros t Ht. apply elem_of_seq in Ht. rewrite Hother by apply track_file_not_dir.
    apply Hfree. lia.
  - exists s2, rows. split; [|repeat split; try assumption].
    + unfold export_multitrack. rewrite Hex. simpl negb. cbv iota.
      fold d. rewrite Hmk, Hopen1. rewrite decide_False by lia.
      rewrite decide_False by assumption. rewrite Ha.
      rewrite <- Hlen, Hn. rewrite reshape_2d_join by assumption. exact Hrun.
    + intros t Ht. apply Htracks. apply elem_of_seq. lia.
Qed.

End ExportFacts.

Module TrackFacts.
Import Codec FS Tp7 Container CodecFacts ArrayFacts WidthFacts FSFacts ContainerFacts.

(** The samples of the stereo container written for track [t]. *)
Lemma track_container (w : wav) (rows : list (list Z)) (t : nat) :
  supported (sampwidth w) -> nchannels w = 12%nat -> (t < 6)%nat ->
  to_array (sampwidth w) (readframes w (getnframes w)) = Decoded (mjoin rows) ->
  length rows = getnframes w ->
  Forall (fun r => length r = 12%nat) rows ->
  Forall (in_range (sampwidth w)) (mjoin rows) ->
  let T := Wave 2 (sampwidth w) (framerate w)
             (to_bytes (sampwidth w) (mjoin (stereo_pair t rows))) in
  getnframes T = getnframes w
  ∧ forall f c, (f < getnframes w)%nat -> (c < 2)%nat ->
      sample_at T f c = sample_at w f (t * 2 + c)
      ∧ is_Some (sample_at w f (t * 2 + c)).
Proof.
  intros Hw Hn Ht Ha Hlen Hrows Hrange T.
  pose proof (stereo_pair_rows rows t Hrows Ht) as Hst.
  pose proof (stereo_pair_in_range (sampwidth w) rows t Hrange) as Hsr.
  destruct (written_container 2 (sampwidth w) (framerate w) (stereo_pair t rows))
    as [HnT HaT]; try assumption; [lia|].
  fold T in HnT, HaT. rewrite length_stereo_pair, Hlen in HnT.
  split; [exact HnT|]. intros f c Hf Hc.
  rewrite (samples_rows T (stereo_pair t rows)) by (assumption || (simpl; lia)).
  rewrite (samples_rows w rows) by (rewrite ?Hn; (assumption || lia)).
  rewrite lookup_stereo_pair by assumption. split; [reflexivity|].
  destruct (lookup_lt_is_Some_2 rows f ltac:(lia)) as [row Hrow]. rewrite Hrow. simpl.
  apply lookup_lt_is_Some_2.
  rewrite Forall_forall in Hrows. rewrite (Hrows row) by (eapply list_elem_of_lookup_2, Hrow).
  lia.
Qed.

End TrackFacts.

(** C5: the demultiplexer gives track [t] (from 0 to 5) the columns [2t]
    and [2t+1] of the 12-channel buffer, in a two-channel container with
    the frame count, the width and the rate of the input and the frames in
    their order; so when every channel [k] of the input holds the constant
    [k], track [t] holds [2t] on the left and [2t+1] on the right. *)
Theorem demux_slices_channel_pairs
    (s s1 : gmap FS.path FS.node) (p : FS.path) (od : option FS.path) (w : FS.wav) :
  let d := Tp7.resolve_output_dir p od in
  let r := Tp7.export_multitrack s p od in
  FS.wave_open_rb s p = inr w ->
  FS.nchannels w = 12%nat ->
  Container.supported (FS.sampwidth w) ->
  FS.framerate w <> 0%N ->
  FS.mkdir_exist_ok s d = inr s1 ->
  (forall t, (t < 6)%nat -> FS.node_at s (Tp7.track_file d t) <> Some FS.Dir) ->
  r.2 = Tp7.Success
  ∧ forall t, (t < 6)%nat ->
      exists T,
        Container.container_at r.1 (Tp7.track_file d t) = Some T
        ∧ FS.nchannels T = 2%nat
        ∧ FS.sampwidth T = FS.sampwidth w
        ∧ FS.framerate T = FS.framerate w
        ∧ FS.getnframes T = FS.getnframes w
        ∧ (forall f, (f < FS.getnframes w)%nat ->
             Container.sample_at T f 0 = Container.sample_at w f (2 * t)
             ∧ Container.sample_at T f 1 = Container.sample_at w f (2 * t + 1)
             ∧ is_Some (Container.sample_at T f 0)
             ∧ is_Some (Container.sample_at T f 1))
        ∧ ((forall f k, (f < FS.getnframes w)%nat -> (k < 12)%nat ->
              Container.sample_at w f k = Some (Z.of_nat k)) ->
           forall f, (f < FS.getnframes w)%nat ->
             Container.sample_at T f 0 = Some (Z.of_nat (2 * t))
             ∧ Container.sample_at T f 1 = Some (Z.of_nat (2 * t + 1))).
Proof.
  intros d r Hopen Hn Hw Hr Hmk Hfree.
  destruct (ExportFacts.export_multitrack_ok s s1 p od w Hopen Hn Hw Hr Hmk Hfree)
    as (s2 & rows & Hrun & Ha & Hlen & Hrows & Hrange & Htracks).
  unfold r. rewrite Hrun. split; [reflexivity|]. intros t Ht.
  destruct (TrackFacts.track_container w rows t Hw Hn Ht Ha Hlen Hrows Hrange) as [HnT Hs].
  cbv zeta in HnT, Hs.
  set (T := FS.Wave 2 (FS.sampwidth w) (FS.framerate w)
              (Tp7.to_bytes (FS.sampwidth w) (mjoin (Container.stereo_pair t rows)))) in *.
  exists T. split; [apply Htracks, Ht|].
  split; [reflexivity|]. split; [reflexivity|]. split; [reflexivity|].
  split; [exact HnT|].
  assert (forall f, (f < FS.getnframes w)%nat ->
            Container.sample_at T f 0 = Container.sample_at w f (2 * t)
            ∧ Container.sample_at T f 1 = Container.sample_at w f (2 * t + 1)
            ∧ is_Some (Container.sample_at T f 0)
            ∧ is_Some (Container.sample_at T f 1)) as Hcols.
  { intros f Hf.
    destruct (Hs f 0%nat Hf ltac:(lia)) as [E0 S0].
    destruct (Hs f 1%nat Hf ltac:(lia)) as [E1 S1].
    replace (t * 2 + 0)%nat with (2 * t)%nat in * by lia.
    replace (t * 2 + 1)%nat with (2 * t + 1)%nat in * by lia.
    rewrite E0, E1. auto. }
  split; [exact Hcols|].
  intros Hconst f Hf. destruct (Hcols f Hf) as (E0 & E1 & _).
  rewrite E0, E1. split; apply Hconst; lia.
Qed.

Lemma demux_slices_channel_pairs_witness :
  (Tp7.export_multitrack Examples.disk ["multi.wav"%string] None).2 = Tp7.Success
  ∧ forall t, (t < 6)%nat ->
      exists T,
        Container.container_at (Tp7.export_multitrack Examples.disk ["multi.wav"%string] None).1
          (Tp7.track_file ["multi_tracks"%string] t) = Some T
        ∧ forall f, (f < 3)%nat ->
            Container.sample_at T f 0 = Some (Z.of_nat (2 * t))
            ∧ Container.sample_at T f 1 = Some (Z.of_nat (2 * t + 1)).
Proof.
  assert (Hfree : forall t, (t < 6)%nat ->
            FS.node_at Examples.disk (Tp7.track_file ["multi_tracks"%string] t) <> Some FS.Dir).
  { intros t Ht. do 6 (destruct t as [|t]; [vm_compute; discriminate|]). lia. }
  assert (Hconst : forall f k, (f < 3)%nat -> (k < 12)%nat ->
            Container.sample_at Examples.multitrack_16 f k = Some (Z.of_nat k)).
  { intros f k Hf Hk. do 3 (destruct f as [|f]; [do 12 (destruct k as [|k]; [vm_compute; reflexivity|]); lia|]).
    lia. }
  destruct (demux_slices_channel_pairs Examples.disk
              (<[["multi_tracks"%string] := FS.Dir]> Examples.disk)
              ["multi.wav"%string] None Examples.multitrack_16
              eq_refl eq_refl (or_introl eq_refl) ltac:(discriminate) eq_refl Hfree)
    as [Hrun Htracks].
  split; [exact Hrun|]. intros t Ht.
  destruct (Htracks t Ht) as (T & HT & _ & _ & _ & _ & _ & Hk).
  exists T. split; [exact HT|]. exact (Hk Hconst).
Defined.

(** C8, as the code has it: for an input container whose channel count
    is not 12, once the output directory exists or has been created, the
    demultiplexer fails with ChannelCountMismatch and writes no track
    file: no file is added or changed. *)
Theorem demux_rejects_other_channel_counts
    (s s1 : gmap FS.path FS.node) (p : FS.path) (od : option FS.path) (w : FS.wav) :
  let d := Tp7.resolve_output_dir p od in
  FS.wave_open_rb s p = inr w ->
  FS.nchannels w <> 12%nat ->
  FS.mkdir_exist_ok s d = inr s1 ->
  Tp7.export_multitrack s p od = (s1, Tp7.Failure Tp7.ChannelCountMismatch)
  ∧ (forall q c, FS.node_at s1 q = Some (FS.File c) <-> FS.node_at s q = Some (FS.File c))
  ∧ (forall t, FS.node_at s1 (Tp7.track_file d t) = FS.node_at s (Tp7.track_file d t)).
Proof.
  intros d Hopen Hn Hmk. split; [|split].
  - apply ExportFacts.export_multitrack_not_12 with (w := w); assumption.
  - intros q c. apply (FSFacts.mkdir_exist_ok_files _ _ _ q c Hmk).
  - intros t. destruct (FSFacts.mkdir_exist_ok_inr _ _ _ Hmk) as (_ & Hother & _).
    apply Hother, FSFacts.track_file_not_dir.
Qed.

Lemma demux_rejects_other_channel_counts_witness :
  FS.wave_open_rb Examples.disk ["a.wav"%string] = inr Examples.stereo_16
  ∧ FS.nchannels Examples.stereo_16 <> 12%nat
  ∧ Tp7.export_multitrack Examples.disk ["a.wav"%string] (Some ["out"%string])
    = (<[["out"%string] := FS.Dir]> Examples.disk, Tp7.Failure Tp7.ChannelCountMismatch).
Proof.
  assert (Hopen : FS.wave_open_rb Examples.disk ["a.wav"%string] = inr Examples.stereo_16)
    by reflexivity.
  assert (Hn : FS.nchannels Examples.stereo_16 <> 12%nat) by (simpl; lia).
  split; [exact Hopen|]. split; [exact Hn|].
  exact (proj1 (demux_rejects_other_channel_counts Examples.disk
                  (<[["out"%string] := FS.Dir]> Examples.disk)
                  ["a.wav"%string] (Some ["out"%string]) Examples.stereo_16
                  Hopen Hn eq_refl)).
Defined.

(** C8, as the claim states it, fails: the directory is created before
    the input is opened, outside the [try], so with a stereo input and an
    output directory whose parent is missing the call ends with an
    uncaught FileNotFoundError and not with ChannelCountMismatch. *)
Lemma demux_channel_check_comes_after_mkdir :
  FS.wave_open_rb Examples.disk ["a.wav"%string] = inr Examples.stereo_16
  ∧ FS.nchannels Examples.stereo_16 = 2%nat
  ∧ Tp7.export_multitrack Examples.disk ["a.wav"%string] (Some ["missing"; "tracks"]%string)
    = (Examples.disk, Tp7.Uncaught FS.FileNotFoundError).
Proof. repeat split; vm_compute; reflexivity. Qed.

(** C9, as the code has it: the demultiplexer creates the output
    directory before it opens or checks the input, so for an existing
    input path whose output directory exists or can be created, the
    directory is there after the call whatever the outcome; when the call
    fails with ChannelCountMismatch or UnsupportedBitDepth nothing else
    has changed. *)
Theorem demux_creates_directory_first
    (s s1 : gmap FS.path FS.node) (p : FS.path) (od : option FS.path) :
  let d := Tp7.resolve_output_dir p od in
  let r := Tp7.export_multitrack s p od in
  FS.exists_ s p = true ->
  FS.mkdir_exist_ok s d = inr s1 ->
  FS.node_at r.1 d = Some FS.Dir
  ∧ (r.2 = Tp7.Failure Tp7.ChannelCountMismatch ∨ r.2 = Tp7.Failure Tp7.UnsupportedBitDepth ->
     r.1 = s1).
Proof.
  intros d r Hex Hmk.
  destruct (ExportFacts.export_multitrack_keeps_dir s s1 p od Hex Hmk) as [Hd Hfail].
  split; [exact Hd|].
  intros [He|He]; eapply Hfail; try exact He; discriminate.
Qed.

Lemma demux_creates_directory_first_witness :
  FS.exists_ Examples.disk ["a.wav"%string] = true
  ∧ FS.node_at Examples.disk ["a_tracks"%string] = None
  ∧ (Tp7.export_multitrack Examples.disk ["a.wav"%string] None).2
    = Tp7.Failure Tp7.ChannelCountMismatch
  ∧ FS.node_at (Tp7.export_multitrack Examples.disk ["a.wav"%string] None).1
      ["a_tracks"%string] = Some FS.Dir.
Proof.
  split; [reflexivity|]. split; [reflexivity|]. split; [vm_compute; reflexivity|].
  exact (proj1 (demux_creates_directory_first Examples.disk
                  (<[["a_tracks"%string] := FS.Dir]> Examples.disk)
                  ["a.wav"%string] None eq_refl eq_refl)).
Defined.

(** C9, as the claim states it, fails: the input exists, the parent of
    the output directory does not, [mkdir] raises, and no directory is
    left behind. *)
Lemma demux_mkdir_can_fail :
  FS.exists_ Examples.disk ["a.wav"%string] = true
  ∧ (Tp7.export_multitrack Examples.disk ["a.wav"%string] (Some ["missing"; "tracks"]%string)).2
    = Tp7.Uncaught FS.FileNotFoundError
  ∧ FS.node_at
      (Tp7.export_multitrack Examples.disk ["a.wav"%string] (Some ["missing"; "tracks"]%string)).1
      ["missing"; "tracks"]%string = None.
Proof. repeat split; vm_compute; reflexivity. Qed.

(** ** The multitrack array *)

Module MultitrackFacts.
Import Codec FS Tp7 Container CodecFacts ArrayFacts WidthFacts FSFacts ContainerFacts.

Lemma length_assign_block (c : nat) (track m : list (list Z)) :
  length (assign_block c track m) = length m.
Proof.
  revert m. induction track as [|t track IH]; intros [|row m]; simpl; auto.
Qed.

Lemma assign_block_rows (n c : nat) (track m : list (list Z)) :
  Forall (fun r => length r = n) m ->
  Forall (fun r => length r = n) (assign_block c track m).
Proof.
  intros Hm. revert track. induction Hm as [|row m Hrow Hm IH]; intros [|t track]; simpl.
  - constructor.
  - constructor.
  - constructor; assumption.
  - constructor; [|apply IH]. rewrite !length_insert. exact Hrow.
Qed.

Lemma lookup_assign_block (c : nat) (track m : list (list Z)) (f : nat) :
  assign_block c track m !! f =
  match track !! f, m !! f with
  | Some t, Some row => Some (<[S c := t !!! 1%nat]> (<[c := t !!! 0%nat]> row))
  | _, o => o
  end.
Proof.
  revert m f. induction track as [|t track IH]; intros [|row m] [|f]; simpl; try reflexivity.
  - destruct (track !! f); reflexivity.
  - apply IH.
Qed.

(** One entry after the assignment of a block. *)
Lemma entry_assign_block (n c : nat) (track m : list (list Z)) (f j : nat) :
  Forall (fun r => length r = n) m ->
  Forall (fun r => length r = 2%nat) track ->
  (length track <= length m)%nat -> (S c < n)%nat ->
  entry (assign_block c track m) f j =
  if decide ((f < length track)%nat ∧ (j = c ∨ j = S c))
  then entry track f (j - c)
  else entry m f j.
Proof.
  intros Hm Htrack Hlen Hc. unfold entry. rewrite lookup_assign_block.
  destruct (track !! f) as [t|] eqn:Ht.
  - pose proof (lookup_lt_Some _ _ _ Ht) as Hf.
    destruct (lookup_lt_is_Some_2 m f ltac:(lia)) as [row Hrow]. rewrite Hrow. simpl.
    assert (length row = n) as Hn.
    { rewrite Forall_forall in Hm. apply Hm. eapply list_elem_of_lookup_2, Hrow. }
    assert (length t = 2%nat) as H2.
    { rewrite Forall_forall in Htrack. apply Htrack. eapply list_elem_of_lookup_2, Ht. }
    destruct t as [|x0 [|x1 [|]]]; try discriminate H2. simpl.
    case_decide as Hj.
    + destruct Hj as [_ [-> | ->]].
      * rewrite list_lookup_insert_ne by lia.
        rewrite list_lookup_insert_eq by lia. rewrite Nat.sub_diag. reflexivity.
      * rewrite list_lookup_insert_eq by (rewrite length_insert; lia).
        replace (S c - c)%nat with 1%nat by lia. reflexivity.
    + rewrite !list_lookup_insert_ne by lia. reflexivity.
  - pose proof (lookup_ge_None_1 _ _ Ht) as Hf.
    rewrite decide_False by lia. destruct (m !! f); reflexivity.
Qed.

(** One entry after the loop over the tracks from index [i] on. *)
Lemma entry_fill_tracks (tracks : list (list (list Z))) (i : nat) (m : list (list Z))
    (f k c : nat) :
  Forall (fun r => length r = 12%nat) m ->
  Forall (Forall (fun r => length r = 2%nat)) tracks ->
  Forall (fun t => (length t <= length m)%nat) tracks ->
  (i + length tracks <= 6)%nat -> (c < 2)%nat ->
  entry (fill_tracks i tracks m) f (2 * k + c) =
  match (if decide (i <= k)%nat then tracks !! (k - i)%nat else None) with
  | Some t => if decide (f < length t)%nat then entry t f c else entry m f (2 * k + c)
  | None => entry m f (2 * k + c)
  end.
Proof.
  intros Hm Htracks. revert i m Hm.
  induction Htracks as [|t tracks Ht _ IH]; intros i m Hm Hlen Hi Hc; simpl fill_tracks.
  - case_decide; reflexivity.
  - apply Forall_cons in Hlen as [Hlt Hlen]. simpl length in Hi.
    rewrite IH; try lia.
    2:{ apply assign_block_rows, Hm. }
    2:{ rewrite length_assign_block. exact Hlen. }
    rewrite (entry_assign_block 12) by (assumption || lia).
    destruct (decide (i <= k)%nat) as [Hik|Hik].
    + destruct (decide (S i <= k)%nat) as [Hsik|Hsik].
      * replace (k - i)%nat with (S (k - S i)) by lia. simpl.
        rewrite (decide_False (P := (_ ∧ _))) by lia. reflexivity.
      * assert (k = i) as -> by lia. rewrite Nat.sub_diag. simpl.
        destruct (decide (f < length t)%nat) as [Hf|Hf].
        -- rewrite decide_True by lia. f_equal. lia.
        -- rewrite decide_False by lia. reflexivity.
    + rewrite (decide_False (P := (S i <= k)%nat)) by lia.
      rewrite decide_False by lia. reflexivity.
Qed.

Lemma length_fill_tracks (tracks : list (list (list Z))) (i : nat) (m : list (list Z)) :
  length (fill_tracks i tracks m) = length m.
Proof.
  revert i m. induction tracks as [|t tracks IH]; intros i m; simpl; [reflexivity|].
  rewrite IH. apply length_assign_block.
Qed.

Lemma fill_tracks_rows (n : nat) (tracks : list (list (list Z))) (i : nat) (m : list (list Z)) :
  Forall (fun r => length r = n) m ->
  Forall (fun r => length r = n) (fill_tracks i tracks m).
Proof.
  revert i m. induction tracks as [|t tracks IH]; intros i m Hm; simpl; [exact Hm|].
  apply IH, assign_block_rows, Hm.
Qed.

Lemma entry_zeros (n f j : nat) :
  (f < n)%nat -> (j < 12)%nat -> entry (replicate n (replicate 12 0)) f j = Some 0.
Proof.
  intros Hf Hj. unfold entry. rewrite lookup_replicate_2 by assumption.
  exact (lookup_replicate_2 12 0 j Hj).
Qed.

(** The multitrack array: as many rows as the longest track, twelve
    columns, track [k] in columns [2k] and [2k+1] and silence elsewhere. *)
Lemma build_multitrack_spec (tracks : list (list (list Z))) :
  Forall (Forall (fun r => length r = 2%nat)) tracks ->
  (length tracks <= 6)%nat ->
  length (build_multitrack tracks) = max_list (length <$> tracks)
  ∧ Forall (fun r => length r = 12%nat) (build_multitrack tracks)
  ∧ forall f k c, (f < max_list (length <$> tracks))%nat -> (k < 6)%nat -> (c < 2)%nat ->
      entry (build_multitrack tracks) f (2 * k + c) =
      match tracks !! k with
      | Some t => if decide (f < length t)%nat then entry t f c else Some 0
      | None => Some 0
      end.
Proof.
  intros Htracks Hlen. unfold build_multitrack.
  set (n := max_list (length <$> tracks)).
  split; [|split].
  - rewrite length_fill_tracks, length_replicate. reflexivity.
  - apply fill_tracks_rows. apply Forall_forall. intros r Hr.
    apply elem_of_replicate in Hr as [-> _]. apply length_replicate.
  - intros f k c Hf Hk Hc.
    rewrite entry_fill_tracks; try assumption; try lia.
    + rewrite decide_True by lia. rewrite Nat.sub_0_r.
      rewrite entry_zeros by (assumption || lia).
      destruct (tracks !! k); [|reflexivity]. case_decide; reflexivity.
    + apply Forall_forall. intros r Hr.
      apply elem_of_replicate in Hr as [-> _]. apply length_replicate.
    + rewrite length_replicate. apply Forall_forall. intros t Ht.
      apply max_list_elem_of_le. apply list_elem_of_fmap. eauto.
Qed.

(** A column index is a track index and a side. *)
Lemma column_split (j : nat) : (j < 12)%nat ->
  exists k c, j = (2 * k + c)%nat ∧ (k < 6)%nat ∧ (c < 2)%nat.
Proof.
  intros Hj. exists (j / 2)%nat, (j mod 2)%nat.
  pose proof (Nat.div_mod_eq j 2). pose proof (Nat.mod_upper_bound j 2 ltac:(lia)).
  split; [lia|]. split; [|assumption].
  apply Nat.Div0.div_lt_upper_bound. lia.
Qed.

End MultitrackFacts.

(** ** The multiplexer *)

Module ImportFacts.
Import Codec FS Tp7 Container CodecFacts ArrayFacts WidthFacts FSFacts ContainerFacts
       MultitrackFacts.

(** What the loading loop gets from an input of the reference format. *)
Lemma stereo_input_rows (s : gmap path node) (width : nat) (rate : N) (p : path) (w : wav) :
  stereo_input s width rate p w -> supported width ->
  to_array width (readframes w (getnframes w)) = Decoded (mjoin (rows_of w))
  ∧ reshape_rows 2 (mjoin (rows_of w)) = Some (rows_of w)
  ∧ length (rows_of w) = getnframes w
  ∧ Forall (fun r => length r = 2%nat) (rows_of w)
  ∧ Forall (in_range width) (mjoin (rows_of w))
  ∧ forall f c, (c < 2)%nat -> sample_at w f c = entry (rows_of w) f c.
Proof.
  intros (Hopen & Hn & Hwd & Hr) Hw. subst width.
  destruct (container_rows w Hw ltac:(lia)) as (rows & Ha & Hlen & Hrows & Hrange).
  rewrite Hn in Hrows.
  assert (rows_of w = rows) as ->.
  { unfold rows_of, samples. rewrite Ha, Hn. apply chunks_join; [lia | assumption]. }
  split; [exact Ha|]. split; [apply reshape_rows_join; [lia | assumption]|].
  split; [exact Hlen|]. split; [exact Hrows|]. split; [exact Hrange|].
  intros f c Hc. apply samples_rows; [exact Ha | rewrite Hn; exact Hrows | lia].
Qed.

Lemma load_tracks_stereo_inputs (s : gmap path node) (width : nat) (rate : N)
    (files : list path) (ws : list wav) (rest : list path) :
  Forall2 (stereo_input s width rate) files ws -> supported width ->
  load_tracks s width rate (files ++ rest) =
  match load_tracks s width rate rest with
  | inl r => inl r
  | inr tracks => inr ((rows_of <$> ws) ++ tracks)
  end.
Proof.
  intros Hfiles Hw. induction Hfiles as [|p w files ws Hp _ IH].
  - simpl. destruct (load_tracks s width rate rest); reflexivity.
  - destruct (stereo_input_rows s width rate p w Hp Hw) as (Ha & Hre & _).
    destruct Hp as (Hopen & Hn & Hwd & Hr).
    cbn [app load_tracks]. rewrite Hopen.
    rewrite decide_False by (intros E; apply E, Hn).
    rewrite decide_False by (intros E; apply E, Hwd).
    rewrite decide_False by (intros E; apply E, Hr).
    rewrite Ha, Hre, IH.
    destruct (load_tracks s width rate rest); reflexivity.
Qed.

(** The failures of the loading loop. *)
Lemma load_tracks_failures (s : gmap path node) (width : nat) (rate : N)
    (files : list path) (r : result) :
  load_tracks s width rate files = inl r ->
  r <> Success ∧ r <> Failure TooManyTracks ∧ r <> Failure NoValidInputs.
Proof.
  induction files as [|p files IH]; simpl; [discriminate|].
  destruct (wave_open_rb s p) as [x|w]; [intros [= <-]; repeat split; discriminate|].
  repeat (case_decide; [intros [= <-]; repeat split; discriminate|]).
  destruct (to_array _ _) as [a| |]; try (intros [= <-]; repeat split; discriminate).
  destruct (reshape_rows 2 a); [|intros [= <-]; repeat split; discriminate].
  destruct (load_tracks s width rate files) as [r'|]; [|discriminate].
  intros [= <-]. apply IH. reflexivity.
Qed.


Lemma import_too_many (s : gmap path node) (input_files : list path) (out : path) :
  (import_to_multitrack s input_files out).2 = Failure TooManyTracks
  <-> (6 < length (filter (fun f => exists_ s f = true) input_files))%nat.
Proof.
  unfold import_to_multitrack.
  destruct (filter _ input_files) as [|first valid] eqn:Hv.
  { simpl. split; [discriminate | lia]. }
  case_decide as Hlen; [simpl; tauto|].
  split; [|intros; lia]. intros H. exfalso.
  destruct (wave_open_rb s first); [discriminate|].
  case_decide; [discriminate|].
  destruct (load_tracks _ _ _ _) as [r|] eqn:Hload.
  - apply load_tracks_failures in Hload as (_ & Hne & _). apply Hne. exact H.
  - case_decide; [discriminate|].
    destruct (wave_write _ _ _ _ _ _); discriminate.
Qed.

Lemma filter_exists_idemp (s : gmap path node) (input_files : list path) :
  filter (fun f => exists_ s f = true) (filter (fun f => exists_ s f = true) input_files)
  = filter (fun f => exists_ s f = true) input_files.
Proof.
  induction input_files as [|p files IH]; [reflexivity|].
  rewrite filter_cons. case_decide as Hp; [|exact IH].
  rewrite filter_cons, decide_True by assumption. rewrite IH. reflexivity.
Qed.

Lemma filter_exists_all (s : gmap path node) (files : list path) :
  Forall (fun f => exists_ s f = true) files ->
  filter (fun f => exists_ s f = true) files = files.
Proof.
  induction 1 as [|p files Hp _ IH]; [reflexivity|].
  rewrite filter_cons, decide_True by assumption. rewrite IH. reflexivity.
Qed.

Lemma import_filtered (s : gmap path node) (input_files : list path) (out : path) :
  import_to_multitrack s input_files out
  = import_to_multitrack s (filter (fun f => exists_ s f = true) input_files) out.
Proof. unfold import_to_multitrack. rewrite filter_exists_idemp. reflexivity. Qed.

(** The call once a first stretch of inputs of the reference format has
    been loaded. *)
Lemma import_after_prefix (s : gmap path node) (input_files : list path) (out : path)
    (width : nat) (rate : N) (p0 : path) (w0 : wav) (pre : list path) (ws : list wav)
    (rest : list path) :
  filter (fun f => exists_ s f = true) input_files = (p0 :: pre) ++ rest ->
  (length ((p0 :: pre) ++ rest) <= 6)%nat ->
  Forall2 (stereo_input s width rate) (p0 :: pre) (w0 :: ws) -> supported width ->
  import_to_multitrack s input_files out =
  match load_tracks s width rate rest with
  | inl r => (s, r)
  | inr tracks =>
      if decide (rate = 0%N) then (s, Uncaught ZeroDivisionError) else
      match wave_write s out 12 width rate
              (to_bytes width (mjoin (build_multitrack ((rows_of <$> (w0 :: ws)) ++ tracks)))) with
      | inl x => (s, Uncaught x)
      | inr s' => (s', Success)
      end
  end.
Proof.
  intros Hv Hlen Hpre Hw.
  pose proof (Forall2_cons_1 _ _ _ _ _ Hpre) as [(Hopen0 & Hn0 & Hw0 & Hr0) _].
  unfold import_to_multitrack. rewrite Hv. cbn [app]. cbv iota.
  rewrite decide_False by (simpl in *; lia).
  rewrite Hopen0. rewrite decide_False by (intros E; apply E, Hn0).
  rewrite Hw0, Hr0.
  change (p0 :: pre ++ rest) with ((p0 :: pre) ++ rest).
  rewrite (load_tracks_stereo_inputs s width rate (p0 :: pre) (w0 :: ws)) by assumption.
  destruct (load_tracks s width rate rest); reflexivity.
Qed.




(** The whole of a successful call. *)
Lemma import_ok (s : gmap path node) (input_files : list path) (out : path)
    (width : nat) (rate : N) (ws : list wav) :
  Forall2 (stereo_input s width rate)
    (filter (fun f => exists_ s f = true) input_files) ws ->
  ws <> [] -> (length ws <= 6)%nat -> supported width -> rate <> 0%N ->
  node_at s out <> Some Dir -> node_at s (parent out) = Some Dir ->
  import_to_multitrack s input_files out =
  (<[out := File (Wav (Wave 12 width rate
                         (to_bytes width (mjoin (build_multitrack (rows_of <$> ws))))))]> s,
   Success).
Proof.
  intros Hv Hne Hlen Hw Hr Hnd Hpar.
  remember (filter (fun f => exists_ s f = true) input_files) as valid eqn:Hvalid.
  destruct Hv as [|p0 w0 pre ws Hp0 Hpre]; [congruence|].
  pose proof (Forall2_length _ _ _ Hpre) as Hl. simpl in Hlen.
  rewrite (import_after_prefix s input_files out width rate p0 w0 pre ws []).
  - cbn [load_tracks]. rewrite decide_False by assumption. rewrite app_nil_r.
    rewrite wave_write_ok; try assumption; try lia; [reflexivity|].
    destruct Hw as [-> | [-> | ->]]; lia.
  - rewrite app_nil_r. symmetry. exact Hvalid.
  - rewrite app_nil_r. simpl. lia.
  - constructor; assumption.
  - assumption.
Qed.

End ImportFacts.

Module MuxFacts.
Import Codec FS Tp7 Container CodecFacts ArrayFacts WidthFacts FSFacts ContainerFacts
       MultitrackFacts ImportFacts.

Lemma in_range_0 (width : nat) : supported width -> in_range width 0.
Proof.
  intros Hw. unfold in_range.
  assert (0 < 2 ^ (8 * Z.of_nat width - 1)).
  { apply Z.pow_pos_nonneg; [lia|]. destruct Hw as [-> | [-> | ->]]; lia. }
  lia.
Qed.

Lemma stereo_inputs_tracks (s : gmap path node) (width : nat) (rate : N)
    (files : list path) (ws : list wav) :
  Forall2 (stereo_input s width rate) files ws -> supported width ->
  Forall (Forall (fun r => length r = 2%nat)) (rows_of <$> ws)
  ∧ length <$> (rows_of <$> ws) = getnframes <$> ws
  ∧ Forall (fun t => Forall (in_range width) (mjoin t)) (rows_of <$> ws).
Proof.
  intros Hfiles Hw. induction Hfiles as [|p w files ws Hp _ (IH1 & IH2 & IH3)].
  - repeat split; constructor.
  - destruct (stereo_input_rows s width rate p w Hp Hw) as (_ & _ & Hlen & Hrows & Hrange & _).
    rewrite !fmap_cons. split; [|split].
    + constructor; assumption.
    + rewrite Hlen, IH2. reflexivity.
    + constructor; assumption.
Qed.

(** The container the multiplexer writes: as many frames as its longest
    input, input [k] in channels [2k] and [2k+1] for as long as it lasts,
    and silence everywhere else. *)
Lemma mux_output (s : gmap path node) (width : nat) (rate : N)
    (files : list path) (ws : list wav) :
  Forall2 (stereo_input s width rate) files ws -> supported width ->
  (length ws <= 6)%nat ->
  let Y := Wave 12 width rate (to_bytes width (mjoin (build_multitrack (rows_of <$> ws)))) in
  getnframes Y = max_list (getnframes <$> ws)
  ∧ forall f k c, (f < getnframes Y)%nat -> (k < 6)%nat -> (c < 2)%nat ->
      sample_at Y f (2 * k + c) =
      match ws !! k with
      | Some T => if decide (f < getnframes T)%nat then sample_at T f c else Some 0
      | None => Some 0
      end.
Proof.
  intros Hfiles Hw Hlen Y.
  destruct (stereo_inputs_tracks s width rate files ws Hfiles Hw) as (Htracks & Hlens & Hranges).
  destruct (build_multitrack_spec (rows_of <$> ws) Htracks) as (HlenM & HrowsM & Hentry).
  { rewrite length_fmap. exact Hlen. }
  set (M := build_multitrack (rows_of <$> ws)) in *.
  rewrite Hlens in HlenM, Hentry.
  assert (Hspec : forall f k c, (f < length M)%nat -> (k < 6)%nat -> (c < 2)%nat ->
            entry M f (2 * k + c) =
            match ws !! k with
            | Some T => if decide (f < getnframes T)%nat then sample_at T f c else Some 0
            | None => Some 0
            end).
  { intros f k c Hf Hk Hc. rewrite Hentry by (assumption || lia).
    rewrite list_lookup_fmap. destruct (ws !! k) as [T|] eqn:HT; [|reflexivity]. simpl.
    destruct (Forall2_lookup_r _ _ _ _ _ Hfiles HT) as (p & _ & Hp).
    destruct (stereo_input_rows s width rate p T Hp Hw) as (_ & _ & HlT & _ & _ & Hs).
    rewrite HlT, Hs by assumption. reflexivity. }
  assert (HrangeM : Forall (in_range width) (mjoin M)).
  { apply Forall_lookup. intros i x Hx.
    apply (join_lookup_Some_same_length 12) in Hx as (f & row & j & Hrow & Hj & ->);
      [|assumption].
    assert (length row = 12%nat) as Hrl.
    { rewrite Forall_forall in HrowsM. apply HrowsM. eapply list_elem_of_lookup_2, Hrow. }
    pose proof (lookup_lt_Some _ _ _ Hj) as Hj12. rewrite Hrl in Hj12.
    pose proof (lookup_lt_Some _ _ _ Hrow) as Hf.
    destruct (column_split j Hj12) as (k & c & -> & Hk & Hc).
    assert (entry M f (2 * k + c) = Some x) as He.
    { unfold entry. rewrite Hrow. exact Hj. }
    rewrite Hspec in He by assumption.
    destruct (ws !! k) as [T|] eqn:HT.
    - case_decide.
      + destruct (Forall2_lookup_r _ _ _ _ _ Hfiles HT) as (p & _ & Hp).
        destruct (stereo_input_rows s width rate p T Hp Hw) as (_ & _ & _ & HrT & HraT & Hs).
        rewrite Hs in He by assumption. unfold entry in He.
        destruct (rows_of T !! f) as [r|] eqn:Hr; [|discriminate]. simpl in He.
        rewrite Forall_forall in HraT. apply HraT.
        apply list_elem_of_join. exists r. split.
        * eapply list_elem_of_lookup_2, He.
        * eapply list_elem_of_lookup_2, Hr.
      + injection He as <-. apply in_range_0, Hw.
    - injection He as <-. apply in_range_0, Hw. }
  destruct (written_container 12 width rate M Hw ltac:(lia) HrowsM HrangeM) as [HnY HaY].
  fold Y in HnY, HaY.
  split; [rewrite HnY; exact HlenM|].
  intros f k c Hf Hk Hc.
  rewrite (samples_rows Y M HaY HrowsM) by (simpl; lia).
  apply Hspec; [rewrite <- HnY; exact Hf | assumption..].
Qed.



(** A successful call and the container it leaves under the output path. *)
Lemma import_ok_output (s : gmap path node) (input_files : list path) (out : path)
    (width : nat) (rate : N) (ws : list wav) :
  Forall2 (stereo_input s width rate)
    (filter (fun f => exists_ s f = true) input_files) ws ->
  ws <> [] -> (length ws <= 6)%nat -> supported width -> rate <> 0%N ->
  node_at s out <> Some Dir -> node_at s (parent out) = Some Dir ->
  (import_to_multitrack s input_files out).2 = Success
  ∧ exists Y,
      container_at (import_to_multitrack s input_files out).1 out = Some Y
      ∧ nchannels Y = 12%nat ∧ sampwidth Y = width ∧ framerate Y = rate
      ∧ getnframes Y = max_list (getnframes <$> ws)
      ∧ forall f k c, (f < getnframes Y)%nat -> (k < 6)%nat -> (c < 2)%nat ->
          sample_at Y f (2 * k + c) =
          match ws !! k with
          | Some T => if decide (f < getnframes T)%nat then sample_at T f c else Some 0
          | None => Some 0
          end.
Proof.
  intros Hv Hne Hlen Hw Hr Hnd Hpar.
  rewrite (import_ok s input_files out width rate ws) by assumption.
  split; [reflexivity|].
  destruct (mux_output s width rate _ ws Hv Hw Hlen) as [HnY Hs].
  cbv zeta in HnY, Hs.
  set (Y := Wave 12 width rate _) in *.
  assert (out <> []) as Hout by (intros ->; apply Hnd; reflexivity).
  exists Y. split.
  { apply container_at_Some. cbn [fst].
    rewrite node_at_insert, decide_True by auto. reflexivity. }
  split; [reflexivity|]. split; [reflexivity|]. split; [reflexivity|].
  split; [exact HnY | exact Hs].
Qed.

End MuxFacts.

(** C6, as the code has it: the limit of six is on the inputs that
    exist; the multiplexer fails with TooManyTracks whenever more than 6
    of the given paths exist. *)
Theorem mux_rejects_more_than_six_existing
    (s : gmap FS.path FS.node) (input_files : list FS.path) (out : FS.path) :
  (6 < length (filter (fun f => FS.exists_ s f = true) input_files))%nat ->
  Tp7.import_to_multitrack s input_files out = (s, Tp7.Failure Tp7.TooManyTracks).
Proof.
  intros Hlen. unfold Tp7.import_to_multitrack.
  destruct (filter _ input_files) as [|first valid]; [simpl in Hlen; lia|].
  rewrite decide_True by assumption. reflexivity.
Qed.

Lemma mux_rejects_more_than_six_existing_witness :
  (6 < length (filter (fun f => FS.exists_ Examples.disk f = true)
                 [["a.wav"]; ["b.wav"]; ["c.wav"]; ["d.wav"]; ["e.wav"]; ["f.wav"];
                  ["g.wav"]]%string))%nat
  ∧ Tp7.import_to_multitrack Examples.disk
      [["a.wav"]; ["b.wav"]; ["c.wav"]; ["d.wav"]; ["e.wav"]; ["f.wav"]; ["g.wav"]]%string
      ["out.wav"%string]
    = (Examples.disk, Tp7.Failure Tp7.TooManyTracks).
Proof.
  assert (H : (6 < length (filter (fun f => FS.exists_ Examples.disk f = true)
                 [["a.wav"]; ["b.wav"]; ["c.wav"]; ["d.wav"]; ["e.wav"]; ["f.wav"];
                  ["g.wav"]]%string))%nat)
    by (vm_compute; lia).
  split; [exact H|].
  exact (mux_rejects_more_than_six_existing Examples.disk _ ["out.wav"%string] H).
Defined.

(** C6, as the claim states it, fails: seven paths are given, none
    exists, and the failure is NoValidInputs; seven paths are given, two
    exist, and the call succeeds. *)
Lemma mux_limit_ignores_missing_paths :
  (6 < length [["m1.wav"]; ["m2.wav"]; ["m3.wav"]; ["m4.wav"]; ["m5.wav"]; ["m6.wav"];
               ["m7.wav"]]%string)%nat
  ∧ Tp7.import_to_multitrack Examples.disk
      [["m1.wav"]; ["m2.wav"]; ["m3.wav"]; ["m4.wav"]; ["m5.wav"]; ["m6.wav"];
       ["m7.wav"]]%string ["out.wav"%string]
    = (Examples.disk, Tp7.Failure Tp7.NoValidInputs)
  ∧ (Tp7.import_to_multitrack Examples.disk
       [["m1.wav"]; ["a.wav"]; ["m3.wav"]; ["m4.wav"]; ["b.wav"]; ["m6.wav"];
        ["m7.wav"]]%string ["out.wav"%string]).2
    = Tp7.Success.
Proof. split; [simpl; lia|]. split; vm_compute; reflexivity. Qed.

(** C10: the multiplexer looks for valid inputs before it applies the
    limit, and the limit counts the files that exist: when no given path
    exists the failure is NoValidInputs, however many were given; the
    failure is TooManyTracks exactly when more than 6 of them exist; and
    the call does what it does on the existing files alone. *)
Theorem mux_counts_existing_files
    (s : gmap FS.path FS.node) (input_files : list FS.path) (out : FS.path) :
  let valid_files := filter (fun f => FS.exists_ s f = true) input_files in
  let r := Tp7.import_to_multitrack s input_files out in
  (Forall (fun f => FS.exists_ s f = false) input_files ->
   r = (s, Tp7.Failure Tp7.NoValidInputs))
  ∧ (r.2 = Tp7.Failure Tp7.TooManyTracks <-> (6 < length valid_files)%nat)
  ∧ ((length valid_files <= 6)%nat -> r.2 <> Tp7.Failure Tp7.TooManyTracks)
  ∧ r = Tp7.import_to_multitrack s valid_files out.
Proof.
  intros valid_files r. split; [|split; [|split]].
  - intros Hnone. unfold r, Tp7.import_to_multitrack.
    assert (filter (fun f => FS.exists_ s f = true) input_files = []) as ->; [|reflexivity].
    induction Hnone as [|p files Hp _ IH]; [reflexivity|].
    rewrite filter_cons, decide_False by congruence. exact IH.
  - apply ImportFacts.import_too_many.
  - intros Hlen H. apply ImportFacts.import_too_many in H. fold valid_files in H. lia.
  - apply ImportFacts.import_filtered.
Qed.

Lemma mux_counts_existing_files_witness :
  Tp7.import_to_multitrack Examples.disk
    [["m1.wav"]; ["m2.wav"]; ["m3.wav"]; ["m4.wav"]; ["m5.wav"]; ["m6.wav"];
     ["m7.wav"]]%string ["out.wav"%string]
  = (Examples.disk, Tp7.Failure Tp7.NoValidInputs)
  ∧ (Tp7.import_to_multitrack Examples.disk
       [["m1.wav"]; ["a.wav"]; ["m3.wav"]; ["m4.wav"]; ["b.wav"]; ["m6.wav"];
        ["m7.wav"]]%string ["out.wav"%string]).2
    <> Tp7.Failure Tp7.TooManyTracks.
Proof.
  split.
  - apply (proj1 (mux_counts_existing_files Examples.disk _ ["out.wav"%string])).
    repeat constructor.
  - apply (proj1 (proj2 (proj2 (mux_counts_existing_files Examples.disk _ ["out.wav"%string])))).
    vm_compute. lia.
Defined.




(** C4: the multiplexer pads with silence.  Its output has 12 channels
    and as many frames as the longest valid input; input [k] fills
    channels [2k] and [2k+1] up to its own length, every later frame of
    that pair is zero, and the pairs of the absent inputs are zero
    throughout.  For a 100-frame and a 50-frame input of one format: 100
    frames, channels 2 and 3 equal to the second input on frames 0 to 49
    and zero on frames 50 to 99, channels 4 to 11 zero on all 100 frames. *)
Theorem mux_pads_with_silence
    (s : gmap FS.path FS.node) (input_files : list FS.path) (out : FS.path)
    (width : nat) (rate : N) (ws : list FS.wav) :
  let valid_files := filter (fun f => FS.exists_ s f = true) input_files in
  let r := Tp7.import_to_multitrack s input_files out in
  Forall2 (Container.stereo_input s width rate) valid_files ws ->
  ws <> [] -> (length ws <= 6)%nat ->
  Container.supported width -> rate <> 0%N ->
  FS.node_at s out <> Some FS.Dir -> FS.node_at s (FS.parent out) = Some FS.Dir ->
  r.2 = Tp7.Success
  ∧ exists Y,
      Container.container_at r.1 out = Some Y
      ∧ FS.nchannels Y = 12%nat ∧ FS.sampwidth Y = width ∧ FS.framerate Y = rate
      ∧ FS.getnframes Y = max_list (FS.getnframes <$> ws)
      ∧ (forall f k c, (f < FS.getnframes Y)%nat -> (k < 6)%nat -> (c < 2)%nat ->
           Container.sample_at Y f (2 * k + c) =
           match ws !! k with
           | Some T =>
               if decide (f < FS.getnframes T)%nat then Container.sample_at T f c else Some 0
           | None => Some 0
           end)
      ∧ (forall A B, ws = [A; B] -> FS.getnframes A = 100%nat -> FS.getnframes B = 50%nat ->
           FS.getnframes Y = 100%nat
           ∧ (forall f, (f < 50)%nat ->
                Container.sample_at Y f 2 = Container.sample_at B f 0
                ∧ Container.sample_at Y f 3 = Container.sample_at B f 1)
           ∧ (forall f, (50 <= f < 100)%nat ->
                Container.sample_at Y f 2 = Some 0 ∧ Container.sample_at Y f 3 = Some 0)
           ∧ (forall f j, (f < 100)%nat -> (4 <= j < 12)%nat ->
                Container.sample_at Y f j = Some 0)).
Proof.
  intros valid_files r Hv Hne Hlen Hw Hr Hnd Hpar.
  destruct (MuxFacts.import_ok_output s input_files out width rate ws
              Hv Hne Hlen Hw Hr Hnd Hpar) as (Hrun & Y & HY & Hch & Hwd & Hrt & HnY & Hs).
  split; [exact Hrun|]. exists Y.
  split; [exact HY|]. split; [exact Hch|]. split; [exact Hwd|]. split; [exact Hrt|].
  split; [exact HnY|]. split; [exact Hs|].
  intros A B -> HA HB.
  assert (FS.getnframes Y = 100%nat) as H100.
  { rewrite HnY. simpl. rewrite HA, HB. reflexivity. }
  rewrite H100 in Hs. split; [exact H100|]. split; [|split].
  - intros f Hf.
    pose proof (Hs f 1%nat 0%nat ltac:(lia) ltac:(lia) ltac:(lia)) as H0.
    pose proof (Hs f 1%nat 1%nat ltac:(lia) ltac:(lia) ltac:(lia)) as H1.
    simpl in H0, H1. rewrite decide_True in H0, H1 by lia. auto.
  - intros f Hf.
    pose proof (Hs f 1%nat 0%nat ltac:(lia) ltac:(lia) ltac:(lia)) as H0.
    pose proof (Hs f 1%nat 1%nat ltac:(lia) ltac:(lia) ltac:(lia)) as H1.
    simpl in H0, H1. rewrite decide_False in H0, H1 by lia. auto.
  - intros f j Hf Hj.
    destruct (MultitrackFacts.column_split j ltac:(lia)) as (k & c & -> & Hk & Hc).
    rewrite Hs by assumption.
    destruct k as [|[|k]]; [lia | lia | reflexivity].
Qed.

Lemma mux_pads_with_silence_witness :
  (Tp7.import_to_multitrack Examples.disk [["long.wav"]; ["short.wav"]]%string
     ["out.wav"%string]).2 = Tp7.Success
  ∧ exists Y,
      Container.container_at
        (Tp7.import_to_multitrack Examples.disk [["long.wav"]; ["short.wav"]]%string
           ["out.wav"%string]).1 ["out.wav"%string] = Some Y
      ∧ FS.getnframes Y = 100%nat
      ∧ (forall f, (f < 50)%nat ->
           Container.sample_at Y f 2 = Container.sample_at Examples.stereo_50 f 0
           ∧ Container.sample_at Y f 3 = Container.sample_at Examples.stereo_50 f 1)
      ∧ (forall f, (50 <= f < 100)%nat ->
           Container.sample_at Y f 2 = Some 0 ∧ Container.sample_at Y f 3 = Some 0)
      ∧ (forall f j, (f < 100)%nat -> (4 <= j < 12)%nat -> Container.sample_at Y f j = Some 0).
Proof.
  assert (Hv : Forall2 (Container.stereo_input Examples.disk 2 44100)
                 (filter (fun f => FS.exists_ Examples.disk f = true)
                    [["long.wav"]; ["short.wav"]]%string)
                 [Examples.stereo_100; Examples.stereo_50]).
  { repeat constructor. }
  destruct (mux_pads_with_silence Examples.disk [["long.wav"]; ["short.wav"]]%string
              ["out.wav"%string] 2 44100 [Examples.stereo_100; Examples.stereo_50]
              Hv ltac:(discriminate) ltac:(simpl; lia) (or_introl eq_refl)
              ltac:(discriminate) ltac:(discriminate) eq_refl)
    as (Hrun & Y & HY & _ & _ & _ & _ & _ & Hpad).
  split; [exact Hrun|]. exists Y. split; [exact HY|].
  exact (Hpad Examples.stereo_100 Examples.stereo_50 eq_refl eq_refl eq_refl).
Defined.

(** C3: the round trip.  For a 12-channel container of 16, 24 or 32
    bits, demultiplexing it and multiplexing the six track files again
    succeeds and gives a container with the channel count, the sample
    width, the sample rate and the frame count of the original, whose
    sample equals the original's in every frame and channel. *)
Theorem mux_inverts_demux
    (s s1 : gmap FS.path FS.node) (p : FS.path) (od : option FS.path) (out : FS.path)
    (X : FS.wav) :
  let d := Tp7.resolve_output_dir p od in
  let r1 := Tp7.export_multitrack s p od in
  let r2 := Tp7.import_to_multitrack r1.1 (Tp7.track_file d <$> seq 0 6) out in
  FS.wave_open_rb s p = inr X ->
  FS.nchannels X = 12%nat ->
  Container.supported (FS.sampwidth X) ->
  FS.framerate X <> 0%N ->
  FS.mkdir_exist_ok s d = inr s1 ->
  (forall t, (t < 6)%nat -> FS.node_at s (Tp7.track_file d t) <> Some FS.Dir) ->
  FS.node_at r1.1 out <> Some FS.Dir ->
  FS.node_at r1.1 (FS.parent out) = Some FS.Dir ->
  r1.2 = Tp7.Success
  ∧ r2.2 = Tp7.Success
  ∧ exists Y,
      Container.container_at r2.1 out = Some Y
      ∧ FS.nchannels Y = FS.nchannels X
      ∧ FS.sampwidth Y = FS.sampwidth X
      ∧ FS.framerate Y = FS.framerate X
      ∧ FS.getnframes Y = FS.getnframes X
      ∧ forall f j, (f < FS.getnframes X)%nat -> (j < 12)%nat ->
          Container.sample_at Y f j = Container.sample_at X f j
          ∧ is_Some (Container.sample_at X f j).
Proof.
  intros d r1 r2 Hopen Hn Hw Hr Hmk Hfree Hnd Hpar.
  destruct (ExportFacts.export_multitrack_ok s s1 p od X Hopen Hn Hw Hr Hmk Hfree)
    as (s2 & rows & Hrun & Ha & Hlen & Hrows & Hrange & Htracks).
  fold d in Htracks.
  assert (r1 = (s2, Tp7.Success)) as Hr1 by exact Hrun.
  unfold r2. rewrite Hr1 in *. cbn [fst snd] in *.
  split; [reflexivity|].
  set (T := fun t => FS.Wave 2 (FS.sampwidth X) (FS.framerate X)
                       (Tp7.to_bytes (FS.sampwidth X) (mjoin (Container.stereo_pair t rows)))).
  assert (Hin : forall t, (t < 6)%nat ->
            Container.stereo_input s2 (FS.sampwidth X) (FS.framerate X)
              (Tp7.track_file d t) (T t)).
  { intros t Ht. split; [|repeat split].
    apply FSFacts.wave_open_rb_inr. split; [apply Htracks, Ht|]. simpl.
    split; [lia|]. apply WidthFacts.supported_pos, Hw. }
  assert (Hvalid : filter (fun f => FS.exists_ s2 f = true) (Tp7.track_file d <$> seq 0 6)
                   = Tp7.track_file d <$> seq 0 6).
  { apply ImportFacts.filter_exists_all. apply Forall_fmap, Forall_forall. intros t Ht.
    apply elem_of_seq in Ht. simpl.
    apply FSFacts.exists_node_at. destruct (Hin t ltac:(lia)) as (Ho & _).
    apply FSFacts.wave_open_rb_inr in Ho as (Hc & _).
    apply FSFacts.container_at_Some in Hc. rewrite Hc. eauto. }
  assert (Hv : Forall2 (Container.stereo_input s2 (FS.sampwidth X) (FS.framerate X))
                 (filter (fun f => FS.exists_ s2 f = true) (Tp7.track_file d <$> seq 0 6))
                 (T <$> seq 0 6)).
  { rewrite Hvalid. apply Forall2_fmap, Forall_Forall2_diag, Forall_forall.
    intros t Ht. apply elem_of_seq in Ht. apply Hin. lia. }
  destruct (MuxFacts.import_ok_output s2 (Tp7.track_file d <$> seq 0 6) out
              (FS.sampwidth X) (FS.framerate X) (T <$> seq 0 6) Hv
              ltac:(discriminate) ltac:(simpl; lia) Hw Hr Hnd Hpar)
    as (Hrun2 & Y & HY & HnY & HwY & HrY & HfY & HsY).
  assert (HTn : forall t, (t < 6)%nat ->
            FS.getnframes (T t) = FS.getnframes X
            ∧ forall f c, (f < FS.getnframes X)%nat -> (c < 2)%nat ->
                Container.sample_at (T t) f c = Container.sample_at X f (t * 2 + c)
                ∧ is_Some (Container.sample_at X f (t * 2 + c))).
  { intros t Ht. apply (TrackFacts.track_container X rows t); assumption. }
  assert (FS.getnframes Y = FS.getnframes X) as HfYX.
  { rewrite HfY. cbn [fmap list_fmap seq max_list max_list_with].
    rewrite (proj1 (HTn 0%nat ltac:(lia))), (proj1 (HTn 1%nat ltac:(lia))),
      (proj1 (HTn 2%nat ltac:(lia))), (proj1 (HTn 3%nat ltac:(lia))),
      (proj1 (HTn 4%nat ltac:(lia))), (proj1 (HTn 5%nat ltac:(lia))).
    unfold id. lia. }
  split; [exact Hrun2|]. exists Y.
  split; [exact HY|]. split; [congruence|]. split; [exact HwY|]. split; [exact HrY|].
  split; [exact HfYX|].
  intros f j Hf Hj.
  destruct (MultitrackFacts.column_split j Hj) as (k & c & -> & Hk & Hc).
  rewrite HsY by (assumption || lia).
  assert ((T <$> seq 0 6) !! k = Some (T k)) as ->.
  { rewrite list_lookup_fmap, lookup_seq_lt by lia. reflexivity. }
  destruct (HTn k Hk) as [Hnk Hsk]. rewrite decide_True by lia.
  destruct (Hsk f c Hf Hc) as [E S].
  replace (2 * k + c)%nat with (k * 2 + c)%nat by lia. auto.
Qed.

Lemma mux_inverts_demux_witness :
  (Tp7.export_multitrack Examples.disk ["multi.wav"%string] None).2 = Tp7.Success
  ∧ (Tp7.import_to_multitrack
       (Tp7.export_multitrack Examples.disk ["multi.wav"%string] None).1
       (Tp7.track_file ["multi_tracks"%string] <$> seq 0 6) ["back.wav"%string]).2
    = Tp7.Success
  ∧ exists Y,
      Container.container_at
        (Tp7.import_to_multitrack
           (Tp7.export_multitrack Examples.disk ["multi.wav"%string] None).1
           (Tp7.track_file ["multi_tracks"%string] <$> seq 0 6) ["back.wav"%string]).1
        ["back.wav"%string] = Some Y
      ∧ FS.getnframes Y = 3%nat
      ∧ forall f j, (f < 3)%nat -> (j < 12)%nat ->
          Container.sample_at Y f j = Container.sample_at Examples.multitrack_16 f j.
Proof.
  assert (Hfree : forall t, (t < 6)%nat ->
            FS.node_at Examples.disk (Tp7.track_file ["multi_tracks"%string] t) <> Some FS.Dir).
  { intros t Ht. do 6 (destruct t as [|t]; [vm_compute; discriminate|]). lia. }
  destruct (mux_inverts_demux Examples.disk
              (<[["multi_tracks"%string] := FS.Dir]> Examples.disk)
              ["multi.wav"%string] None ["back.wav"%string] Examples.multitrack_16
              eq_refl eq_refl (or_introl eq_refl) ltac:(discriminate) eq_refl Hfree
              ltac:(vm_compute; discriminate) eq_refl)
    as (H1 & H2 & Y & HY & _ & _ & _ & HfY & Hs).
  split; [exact H1|]. split; [exact H2|]. exists Y.
  split; [exact HY|]. split; [exact HfY|].
  intros f j Hf Hj. exact (proj1 (Hs f j Hf Hj)).
Defined.

(** ** Further properties of the sample codec *)

Module CodecMore.
Import Codec FS Tp7 Container CodecFacts ArrayFacts WidthFacts.

Lemma wrap_signed_mod_arg (bits z : Z) :
  0 < bits -> wrap_signed bits (z mod 2 ^ bits) = wrap_signed bits z.
Proof.
  intros Hb. unfold wrap_signed. rewrite Z.add_mod_idemp_l; [reflexivity|].
  apply Z.pow_nonzero; lia.
Qed.

Lemma signed_le_le_bytes (k : nat) (v : Z) :
  (0 < k)%nat -> signed_le k (le_bytes k v) = wrap_signed (8 * Z.of_nat k) v.
Proof.
  intros Hk. unfold signed_le. rewrite le_unsigned_le_bytes.
  apply wrap_signed_mod_arg. lia.
Qed.

Lemma frombuffer_le_bytes (k : nat) (a : list Z) :
  (0 < k)%nat ->
  frombuffer k (signed_le k) (a ≫= le_bytes k) = Some (wrap_signed (8 * Z.of_nat k) <$> a).
Proof.
  intros Hk. unfold frombuffer.
  rewrite (bind_enc_length k (le_bytes k)) by (intros; apply le_bytes_length).
  rewrite Nat.Div0.mod_mul, decide_True by reflexivity.
  rewrite (chunks_bind_enc k (le_bytes k)) by (lia || intros; apply le_bytes_length).
  rewrite <- list_fmap_compose. f_equal. apply list_fmap_ext.
  intros i v _. simpl. apply signed_le_le_bytes, Hk.
Qed.

End CodecMore.

(** X1: [read_24bit_audio] accepts exactly the buffers made of whole
    three-byte groups ([reshape(-1, 3)] raises on any other); it returns
    one sample per group, and every sample lies in the signed 24-bit
    range. *)
Theorem read_24bit_audio_whole_groups (data : list byte) :
  (Codec.read_24bit_audio data = None <-> (length data mod 3 <> 0)%nat)
  ∧ forall a, Codec.read_24bit_audio data = Some a ->
      length a = (length data / 3)%nat
      ∧ Forall (fun v => - 8388608 <= v <= 8388607) a.
Proof.
  rewrite WidthFacts.read_24bit_audio_frombuffer. unfold Codec.frombuffer.
  case_decide as Hlen; split.
  - split; [discriminate | intros H; contradiction].
  - intros a [= <-]. split.
    + rewrite length_fmap. apply ArrayFacts.length_chunks.
    + apply Forall_fmap, Forall_forall. intros bs _. simpl. unfold Codec.signed_le.
      pose proof (CodecFacts.wrap_signed_range 24 (Codec.le_unsigned bs) ltac:(lia)) as H.
      change (8 * Z.of_nat 3) with 24. change (2 ^ (24 - 1)) with 8388608 in H. lia.
  - split; [intros _; exact Hlen | reflexivity].
  - intros a [=].
Qed.

(** X2: [write_24bit_audio] keeps the low 24 bits of a sample and
    nothing else: reading its output back gives every sample reduced to
    the signed 24-bit range (8388608 comes back as -8388608), and a sample
    and its reduction are written as the same bytes. *)
Theorem write_24bit_audio_keeps_low_24_bits (a : list Z) :
  Codec.read_24bit_audio (Codec.write_24bit_audio a) = Some (Codec.wrap_signed 24 <$> a)
  ∧ Codec.write_24bit_audio (Codec.wrap_signed 24 <$> a) = Codec.write_24bit_audio a
  ∧ Codec.read_24bit_audio (Codec.write_24bit_audio [8388608; -8388609; 16777216])
    = Some [-8388608; 8388607; 0].
Proof.
  split; [|split].
  - rewrite WidthFacts.read_24bit_audio_frombuffer, WidthFacts.write_24bit_audio_bind.
    apply (CodecMore.frombuffer_le_bytes 3). lia.
  - rewrite !WidthFacts.write_24bit_audio_bind.
    induction a as [|v a IH]; [reflexivity|].
    rewrite fmap_cons, !bind_cons, IH. f_equal.
    apply WidthFacts.le_bytes_wrap; simpl; lia.
  - vm_compute. reflexivity.
Qed.

(** X3: the conversions the two operations apply to a payload are
    inverse to each other for every supported width (16, 24 and 32 bits):
    a buffer of whole samples decodes to samples of the width's range and
    encodes back to the same bytes; samples in range encode and decode
    back to themselves; a buffer that is not a whole number of samples
    does not decode. *)
Theorem sample_codec_roundtrip (w : nat) (data : list byte) (a : list Z) :
  Container.supported w ->
  ((length data mod w = 0)%nat ->
   exists a', Tp7.to_array w data = Tp7.Decoded a'
     ∧ Tp7.to_bytes w a' = data
     ∧ Forall (Container.in_range w) a'
     ∧ (length a' * w)%nat = length data)
  ∧ ((length data mod w <> 0)%nat -> Tp7.to_array w data = Tp7.BadBuffer)
  ∧ (Forall (Container.in_range w) a -> Tp7.to_array w (Tp7.to_bytes w a) = Tp7.Decoded a).
Proof.
  intros Hw. split; [|split].
  - intros Hlen. destruct (WidthFacts.to_array_Decoded w data Hw Hlen) as [a' Ha'].
    exists a'. split; [exact Ha'|]. split; [|split].
    + eapply WidthFacts.to_bytes_to_array; eassumption.
    + eapply WidthFacts.to_array_in_range; eassumption.
    + eapply WidthFacts.to_array_length; eassumption.
  - intros Hlen. rewrite WidthFacts.to_array_frombuffer by assumption.
    unfold Codec.frombuffer. rewrite decide_False by assumption. reflexivity.
  - intros Ha. apply WidthFacts.to_array_to_bytes; assumption.
Qed.

Lemma sample_codec_roundtrip_witness :
  Container.supported 2
  ∧ (exists a', Tp7.to_array 2 [x01; x00; xff; xff] = Tp7.Decoded a'
       ∧ Tp7.to_bytes 2 a' = [x01; x00; xff; xff])
  ∧ Tp7.to_array 2 (Tp7.to_bytes 2 [1; -1; 32767; -32768]) = Tp7.Decoded [1; -1; 32767; -32768].
Proof.
  assert (Hw : Container.supported 2) by (left; reflexivity).
  destruct (sample_codec_roundtrip 2 [x01; x00; xff; xff] [1; -1; 32767; -32768] Hw)
    as (Hdec & _ & Henc).
  split; [exact Hw|]. split.
  - destruct (Hdec eq_refl) as (a' & Ha & Hb & _). exists a'. split; assumption.
  - apply Henc. repeat constructor; unfold Container.in_range; simpl; lia.
Defined.

(** ** Further properties of the demultiplexer *)

Module ExportMore.
Import Codec FS Tp7 Container CodecFacts ArrayFacts WidthFacts FSFacts ContainerFacts
       ExportFacts.

(** The call leaves every path alone but the output directory and the
    six track files. *)
Lemma export_frame (s : gmap path node) (p : path) (od : option path) (q : path) :
  q <> resolve_output_dir p od ->
  (forall t, (t < 6)%nat -> q <> track_file (resolve_output_dir p od) t) ->
  node_at (export_multitrack s p od).1 q = node_at s q.
Proof.
  intros Hd Ht. unfold export_multitrack.
  destruct (exists_ s p); cbn [negb]; [|reflexivity].
  destruct (mkdir_exist_ok s _) as [x|s1] eqn:Hmk; [reflexivity|].
  destruct (mkdir_exist_ok_inr s s1 _ Hmk) as (_ & Hframe & _).
  specialize (Hframe q Hd).
  destruct (wave_open_rb s1 p) as [x|w]; [exact Hframe|].
  case_decide; [exact Hframe|].
  case_decide; [exact Hframe|].
  destruct (to_array _ _); try exact Hframe.
  destruct (reshape_2d _ _ _); [|exact Hframe].
  rewrite <- Hframe. apply export_tracks_outcome.
  intros t Hin. apply Ht. apply elem_of_seq in Hin. lia.
Qed.

(** No directory is removed or replaced. *)
Lemma export_keeps_directories (s : gmap path node) (p : path) (od : option path) (q : path) :
  node_at s q = Some Dir -> node_at (export_multitrack s p od).1 q = Some Dir.
Proof.
  intros Hq. unfold export_multitrack.
  destruct (exists_ s p); cbn [negb]; [|exact Hq].
  destruct (mkdir_exist_ok s _) as [x|s1] eqn:Hmk; [exact Hq|].
  destruct (mkdir_exist_ok_inr s s1 _ Hmk) as (_ & _ & Hdirs).
  specialize (Hdirs q Hq).
  destruct (wave_open_rb s1 p) as [x|w]; [exact Hdirs|].
  case_decide; [exact Hdirs|].
  case_decide; [exact Hdirs|].
  destruct (to_array _ _); try exact Hdirs.
  destruct (reshape_2d _ _ _); [|exact Hdirs].
  apply export_tracks_outcome, Hdirs.
Qed.

Lemma export_tracks_success_inv (d : path) (width : nat) (rate : N) (a : list (list Z))
    (ts : list nat) (s : gmap path node) :
  (export_tracks s d width rate a ts).2 = Success ->
  forall t, t ∈ ts -> node_at s (track_file d t) <> Some Dir.
Proof.
  revert s. induction ts as [|t0 ts IH]; intros s Hrun t Hin.
  - apply elem_of_nil in Hin. contradiction.
  - cbn [export_tracks] in Hrun.
    destruct (select_columns _ a) as [stereo|]; [|discriminate].
    destruct (wave_write s _ 2 width rate _) as [x|s'] eqn:Hwr; [discriminate|].
    apply wave_write_inr in Hwr as (Hne & Hnd & _ & ->).
    apply elem_of_cons in Hin as [-> | Hin]; [exact Hnd|].
    specialize (IH _ Hrun t Hin). rewrite node_at_insert in IH by exact Hne.
    case_decide as Heq; [rewrite <- Heq; exact Hnd | exact IH].
Qed.

Lemma to_array_Decoded_supported (w : nat) (data : list byte) (a : list Z) :
  to_array w data = Decoded a -> supported w.
Proof.
  unfold to_array, supported. repeat case_decide; try discriminate; auto.
Qed.

Lemma to_array_unsupported (w : nat) (data : list byte) :
  ~ supported w -> to_array w data = Unsupported.
Proof.
  unfold to_array, supported. intros H. repeat case_decide; try reflexivity; tauto.
Qed.

(** A path that opens as a container is not the directory [mkdir] accepts. *)
Lemma opened_not_directory (s s1 : gmap path node) (p d : path) (w : wav) :
  wave_open_rb s p = inr w -> mkdir_exist_ok s d = inr s1 -> p <> d.
Proof.
  intros Hopen Hmk ->. apply wave_open_rb_inr in Hopen as (Hc & _).
  apply container_at_Some in Hc. unfold mkdir_exist_ok in Hmk. rewrite Hc in Hmk.
  discriminate.
Qed.

Lemma export_success_inv (s : gmap path node) (p : path) (od : option path) :
  (export_multitrack s p od).2 = Success ->
  exists w s1,
    wave_open_rb s p = inr w ∧ nchannels w = 12%nat ∧ supported (sampwidth w)
    ∧ framerate w <> 0%N
    ∧ mkdir_exist_ok s (resolve_output_dir p od) = inr s1
    ∧ forall t, (t < 6)%nat ->
        node_at s (track_file (resolve_output_dir p od) t) <> Some Dir.
Proof.
  unfold export_multitrack.
  destruct (exists_ s p) eqn:Hex; cbn [negb]; [|discriminate].
  destruct (mkdir_exist_ok s _) as [x|s1] eqn:Hmk; [discriminate|].
  destruct (wave_open_rb s1 p) as [x|w] eqn:Hopen1; [discriminate|].
  case_decide as Hn; [discriminate|].
  case_decide as Hr; [discriminate|].
  destruct (to_array _ _) as [a| |] eqn:Ha; try discriminate.
  destruct (reshape_2d _ _ _) as [rows|]; [|discriminate].
  intros Hrun. exists w, s1.
  assert (wave_open_rb s p = inr w) as Hopen.
  { destruct (mkdir_exist_ok_open s s1 _ p Hmk) as [(w' & H & H1) | (x & x' & _ & H1)].
    - apply exists_node_at in Hex as [n Hn']. congruence.
    - congruence.
    - congruence. }
  split; [exact Hopen|]. split; [destruct (decide (nchannels w = 12%nat)); tauto|].
  split; [eapply to_array_Decoded_supported, Ha|]. split; [exact Hr|].
  split; [reflexivity|].
  intros t Ht.
  destruct (mkdir_exist_ok_inr s s1 _ Hmk) as (_ & Hframe & _).
  rewrite <- Hframe by apply track_file_not_dir.
  eapply export_tracks_success_inv; [exact Hrun|]. apply elem_of_seq. lia.
Qed.

Lemma seq_split_at (t0 : nat) :
  (t0 < 6)%nat -> seq 0 6 = seq 0 t0 ++ t0 :: seq (S t0) (5 - t0).
Proof.
  intros H. do 6 (destruct t0 as [|t0]; [reflexivity|]). lia.
Qed.

(** The loop stops at the first track it cannot write and leaves the
    tracks before it in place. *)
Lemma export_tracks_blocked (d : path) (width : nat) (rate : N) (a : list (list Z))
    (pre : list nat) (t0 : nat) (post : list nat) (s : gmap path node) :
  Forall (fun r => length r = 12%nat) a ->
  Forall (fun t => (t < 6)%nat) (pre ++ t0 :: post) -> NoDup (pre ++ t0 :: post) ->
  (1 <= width <= 4)%nat -> rate <> 0%N ->
  node_at s d = Some Dir ->
  (forall t, t ∈ pre -> node_at s (track_file d t) <> Some Dir) ->
  node_at s (track_file d t0) = Some Dir ->
  let r := export_tracks s d width rate a (pre ++ t0 :: post) in
  r.2 = Failure IOError
  ∧ (forall t, t ∈ pre ->
       container_at r.1 (track_file d t)
       = Some (Wave 2 width rate (to_bytes width (mjoin (stereo_pair t a)))))
  ∧ (forall q, (forall t, t ∈ pre -> q <> track_file d t) -> node_at r.1 q = node_at s q).
Proof.
  intros Ha. revert s. induction pre as [|t1 pre IH]; intros s Hts Hnd Hw Hr Hd Hfree Hblock.
  - cbn [app export_tracks]. inversion Hts as [|? ? Ht0 _]; subst.
    rewrite select_columns_stereo by assumption.
    unfold wave_write. rewrite Hblock. simpl.
    split; [reflexivity|]. split; [|reflexivity].
    intros t Hin. apply elem_of_nil in Hin. contradiction.
  - cbn [app export_tracks]. inversion Hts as [|? ? Ht1 Hts']; subst.
    apply NoDup_cons in Hnd as [Hnotin Hnd].
    rewrite select_columns_stereo by assumption.
    rewrite wave_write_ok;
      [| apply Hfree; left | rewrite parent_track_file; exact Hd | lia | lia | exact Hr].
    set (T := Wave 2 width rate _).
    set (s' := <[track_file d t1 := File (Wav T)]> s).
    assert (Hother : forall t, t ∈ pre ++ t0 :: post ->
              node_at s' (track_file d t) = node_at s (track_file d t)).
    { intros t Hin. unfold s'. rewrite node_at_insert by apply track_file_not_nil.
      rewrite decide_False; [reflexivity|].
      intros Heq. apply track_file_inj in Heq; [subst; contradiction | assumption |].
      rewrite Forall_forall in Hts'. apply Hts', Hin. }
    destruct (IH s' Hts' Hnd Hw Hr) as (Hrun & Htracks & Hframe).
    { unfold s'. rewrite node_at_insert by apply track_file_not_nil.
      rewrite decide_False by apply track_file_not_dir. exact Hd. }
    { intros t Hin. rewrite Hother by (apply elem_of_app; left; exact Hin).
      apply Hfree. right. exact Hin. }
    { rewrite Hother by (apply elem_of_app; right; left). exact Hblock. }
    split; [exact Hrun|]. split.
    + intros t Hin. apply elem_of_cons in Hin as [-> | Hin]; [|apply Htracks, Hin].
      apply container_at_Some. rewrite Hframe.
      * unfold s'. rewrite node_at_insert, decide_True by (reflexivity || apply track_file_not_nil).
        reflexivity.
      * intros t Hin Heq. apply track_file_inj in Heq; [| assumption |].
        -- subst. apply Hnotin, elem_of_app. left. exact Hin.
        -- rewrite Forall_forall in Hts'. apply Hts', elem_of_app. left. exact Hin.
    + intros q Hq. rewrite Hframe by (intros t Hin; apply Hq; right; exact Hin).
      unfold s'. rewrite node_at_insert by apply track_file_not_nil.
      rewrite decide_False; [reflexivity|]. intros Heq. apply (Hq t1); [left | congruence].
Qed.

End ExportMore.

(** X4: what a successful export implies.  [export_multitrack] returns
    [True] only when the input opens as a container of 12 channels, of
    16, 24 or 32 bits and of a nonzero sample rate, the output directory
    exists or could be created, and none of the six track paths is a
    directory. *)
Theorem export_success_requires
    (s : gmap FS.path FS.node) (p : FS.path) (od : option FS.path) :
  let d := Tp7.resolve_output_dir p od in
  (Tp7.export_multitrack s p od).2 = Tp7.Success ->
  exists w s1,
    FS.wave_open_rb s p = inr w ∧ FS.nchannels w = 12%nat
    ∧ Container.supported (FS.sampwidth w) ∧ FS.framerate w <> 0%N
    ∧ FS.mkdir_exist_ok s d = inr s1
    ∧ forall t, (t < 6)%nat -> FS.node_at s (Tp7.track_file d t) <> Some FS.Dir.
Proof.
  intros d. apply ExportMore.export_success_inv.
Qed.

(** X5: what the demultiplexer leaves alone.  Whatever the outcome, every
    path other than the output directory and the six track files holds
    after the call what it held before; no directory is removed or
    replaced; and an input that is not itself one of the track paths still
    opens as the same container. *)
Theorem export_touches_only_outputs
    (s : gmap FS.path FS.node) (p : FS.path) (od : option FS.path) :
  let d := Tp7.resolve_output_dir p od in
  let r := Tp7.export_multitrack s p od in
  (forall q, q <> d -> (forall t, (t < 6)%nat -> q <> Tp7.track_file d t) ->
     FS.node_at r.1 q = FS.node_at s q)
  ∧ (forall q, FS.node_at s q = Some FS.Dir -> FS.node_at r.1 q = Some FS.Dir)
  ∧ (forall w, FS.wave_open_rb s p = inr w ->
       (forall t, (t < 6)%nat -> p <> Tp7.track_file d t) ->
       FS.wave_open_rb r.1 p = inr w).
Proof.
  intros d r. split; [|split].
  - intros q Hd Ht. apply ExportMore.export_frame; assumption.
  - intros q Hq. apply ExportMore.export_keeps_directories, Hq.
  - intros w Hopen Ht.
    assert (FS.node_at r.1 p = FS.node_at s p) as Hnode.
    { destruct (decide (p = d)) as [Hpd|Hpd].
      - apply FSFacts.wave_open_rb_inr in Hopen as (Hc & _).
        apply FSFacts.container_at_Some in Hc.
        assert (FS.exists_ s p = true) as Hex
          by (apply FSFacts.exists_node_at; rewrite Hc; eauto).
        assert (FS.mkdir_exist_ok s d = inl FS.FileExistsError) as Hmk.
        { unfold FS.mkdir_exist_ok. rewrite <- Hpd, Hc. reflexivity. }
        unfold r, Tp7.export_multitrack. rewrite Hex. cbn [negb]. fold d. rewrite Hmk.
        reflexivity.
      - apply ExportMore.export_frame; assumption. }
    unfold FS.wave_open_rb in *. rewrite Hnode. exact Hopen.
Qed.





(** X8: the demultiplexer stops at the first track it cannot write.  When
    the path of track [t0] is a directory, the call reports a failure,
    the tracks before [t0] have been written in full and stay, and no
    later track path is touched: a failed export can leave part of its
    output behind. *)
Theorem export_stops_at_first_failed_write
    (s s1 : gmap FS.path FS.node) (p : FS.path) (od : option FS.path) (w : FS.wav)
    (t0 : nat) :
  let d := Tp7.resolve_output_dir p od in
  let r := Tp7.export_multitrack s p od in
  FS.wave_open_rb s p = inr w ->
  FS.nchannels w = 12%nat ->
  Container.supported (FS.sampwidth w) ->
  FS.framerate w <> 0%N ->
  FS.mkdir_exist_ok s d = inr s1 ->
  (t0 < 6)%nat ->
  FS.node_at s (Tp7.track_file d t0) = Some FS.Dir ->
  (forall t, (t < t0)%nat -> FS.node_at s (Tp7.track_file d t) <> Some FS.Dir) ->
  r.2 = Tp7.Failure Tp7.IOError
  ∧ (forall t, (t < t0)%nat ->
       exists T,
         Container.container_at r.1 (Tp7.track_file d t) = Some T
         ∧ FS.nchannels T = 2%nat ∧ FS.sampwidth T = FS.sampwidth w
         ∧ FS.framerate T = FS.framerate w ∧ FS.getnframes T = FS.getnframes w
         ∧ forall f c, (f < FS.getnframes w)%nat -> (c < 2)%nat ->
             Container.sample_at T f c = Container.sample_at w f (t * 2 + c))
  ∧ (forall t, (t0 <= t < 6)%nat ->
       FS.node_at r.1 (Tp7.track_file d t) = FS.node_at s (Tp7.track_file d t)).
Proof.
  intros d r Hopen Hn Hw Hr Hmk Ht0 Hblock Hfree.
  destruct (ExportFacts.export_multitrack_opened _ _ _ _ _ Hopen Hmk) as [Hex Hopen1].
  destruct (FSFacts.mkdir_exist_ok_inr _ _ _ Hmk) as (Hd & Hother & _).
  destruct (ContainerFacts.container_rows w Hw ltac:(lia)) as (rows & Ha & Hlen & Hrows & Hrange).
  rewrite Hn in Hrows.
  assert (Hrun : r = Tp7.export_tracks s1 d (FS.sampwidth w) (FS.framerate w) rows
                       (seq 0 t0 ++ t0 :: seq (S t0) (5 - t0))).
  { unfold r, Tp7.export_multitrack. rewrite Hex. cbn [negb]. fold d.
    rewrite Hmk, Hopen1. rewrite decide_False by lia. rewrite decide_False by assumption.
    rewrite Ha. rewrite <- Hlen, Hn. rewrite ArrayFacts.reshape_2d_join by assumption.
    rewrite <- ExportMore.seq_split_at by assumption. reflexivity. }
  destruct (ExportMore.export_tracks_blocked d (FS.sampwidth w) (FS.framerate w) rows
              (seq 0 t0) t0 (seq (S t0) (5 - t0)) s1) as (Hres & Htracks & Hframe);
    try assumption.
  - rewrite <- ExportMore.seq_split_at by assumption.
    apply Forall_forall. intros t Ht. apply elem_of_seq in Ht. lia.
  - rewrite <- ExportMore.seq_split_at by assumption. apply NoDup_seq.
  - destruct Hw as [-> | [-> | ->]]; lia.
  - intros t Ht. apply elem_of_seq in Ht. rewrite Hother by apply FSFacts.track_file_not_dir.
    apply Hfree. lia.
  - rewrite Hother by apply FSFacts.track_file_not_dir. exact Hblock.
  - rewrite <- Hrun in Hres, Htracks, Hframe. split; [exact Hres|]. split.
    + intros t Ht. eexists. split; [apply Htracks, elem_of_seq; lia|].
      destruct (TrackFacts.track_container w rows t Hw Hn ltac:(lia) Ha Hlen Hrows Hrange)
        as [HnT HsT].
      split; [reflexivity|]. split; [reflexivity|]. split; [reflexivity|].
      split; [exact HnT|].
      intros f c Hf Hc. apply HsT; assumption.
    + intros t Ht. rewrite Hframe.
      * apply Hother, FSFacts.track_file_not_dir.
      * intros t' Hin Heq. apply elem_of_seq in Hin.
        apply FSFacts.track_file_inj in Heq; lia.
Qed.

Lemma export_stops_at_first_failed_write_witness :
  FS.node_at Fixtures.disk ["taken"; "track_03.wav"]%string = Some FS.Dir
  ∧ (Tp7.export_multitrack Fixtures.disk ["multi.wav"%string] (Some ["taken"%string])).2
    = Tp7.Failure Tp7.IOError
  ∧ (forall t, (t < 2)%nat ->
       exists T,
         Container.container_at
           (Tp7.export_multitrack Fixtures.disk ["multi.wav"%string] (Some ["taken"%string])).1
           (Tp7.track_file ["taken"%string] t) = Some T
         ∧ FS.getnframes T = 3%nat)
  ∧ FS.node_at
      (Tp7.export_multitrack Fixtures.disk ["multi.wav"%string] (Some ["taken"%string])).1
      ["taken"; "track_04.wav"]%string = None.
Proof.
  assert (Hfree : forall t, (t < 2)%nat ->
            FS.node_at Fixtures.disk (Tp7.track_file ["taken"%string] t) <> Some FS.Dir).
  { intros t Ht. do 2 (destruct t as [|t]; [vm_compute; discriminate|]). lia. }
  destruct (export_stops_at_first_failed_write Fixtures.disk Fixtures.disk
              ["multi.wav"%string] (Some ["taken"%string]) Examples.multitrack_16 2
              eq_refl eq_refl (or_introl eq_refl) ltac:(discriminate) eq_refl
              ltac:(lia) eq_refl Hfree) as (Hres & Htracks & Hlater).
  split; [reflexivity|]. split; [exact Hres|]. split.
  - intros t Ht. destruct (Htracks t Ht) as (T & HT & _ & _ & _ & HnT & _).
    exists T. split; [exact HT | exact HnT].
  - exact (Hlater 3%nat ltac:(lia)).
Defined.

(** X9: exporting twice.  After a successful export whose input is not
    one of the track paths, a second export of the same input to the same
    directory succeeds again and leaves every path holding what the first
    one left. *)
Theorem export_is_idempotent
    (s : gmap FS.path FS.node) (p : FS.path) (od : option FS.path) :
  let d := Tp7.resolve_output_dir p od in
  let r1 := Tp7.export_multitrack s p od in
  let r2 := Tp7.export_multitrack r1.1 p od in
  r1.2 = Tp7.Success ->
  (forall t, (t < 6)%nat -> p <> Tp7.track_file d t) ->
  r2.2 = Tp7.Success ∧ forall q, FS.node_at r2.1 q = FS.node_at r1.1 q.
Proof.
  intros d r1 r2 Hrun Hp.
  destruct (ExportMore.export_success_inv s p od Hrun)
    as (w & s1 & Hopen & Hn & Hw & Hr & Hmk & Hfree).
  fold d in Hmk, Hfree.
  destruct (ExportFacts.export_multitrack_ok s s1 p od w Hopen Hn Hw Hr Hmk Hfree)
    as (s2 & rows & Hrun1 & Ha & Hlen & Hrows & Hrange & Htracks).
  fold d in Htracks.
  assert (Hex : FS.exists_ s p = true).
  { apply (ExportFacts.export_multitrack_opened s s1 p od w Hopen Hmk). }
  assert (Hd2 : FS.node_at s2 d = Some FS.Dir).
  { pose proof (proj1 (ExportFacts.export_multitrack_keeps_dir s s1 p od Hex Hmk)) as H.
    rewrite Hrun1 in H. exact H. }
  assert (Hopen2 : FS.wave_open_rb s2 p = inr w).
  { assert (FS.node_at s2 p = FS.node_at s p) as Hnode.
    { pose proof (ExportMore.export_frame s p od p) as H. rewrite Hrun1 in H.
      apply H; [|exact Hp]. eapply ExportMore.opened_not_directory; eassumption. }
    unfold FS.wave_open_rb in *. rewrite Hnode. exact Hopen. }
  assert (Hmk2 : FS.mkdir_exist_ok s2 d = inr s2).
  { unfold FS.mkdir_exist_ok. rewrite Hd2. reflexivity. }
  assert (Hfree2 : forall t, (t < 6)%nat -> FS.node_at s2 (Tp7.track_file d t) <> Some FS.Dir).
  { intros t Ht. specialize (Htracks t Ht). apply FSFacts.container_at_Some in Htracks.
    rewrite Htracks. discriminate. }
  destruct (ExportFacts.export_multitrack_ok s2 s2 p od w Hopen2 Hn Hw Hr Hmk2 Hfree2)
    as (s3 & rows' & Hrun2 & Ha' & Hlen' & Hrows' & _ & Htracks').
  fold d in Htracks'.
  assert (rows' = rows) as ->.
  { rewrite Ha in Ha'. injection Ha' as Heq.
    rewrite <- (ArrayFacts.chunks_join 12 rows') by (lia || assumption).
    rewrite <- (ArrayFacts.chunks_join 12 rows) by (lia || assumption).
    rewrite Heq. reflexivity. }
  assert (r1 = (s2, Tp7.Success)) as Hr1 by exact Hrun1.
  unfold r2. rewrite Hr1. cbn [fst snd]. rewrite Hrun2. cbn [fst snd].
  split; [reflexivity|]. intros q.
  destruct (decide (q ∈ Tp7.track_file d <$> seq 0 6)) as [Hin|Hnin].
  - apply list_elem_of_fmap in Hin as (t & -> & Hin). apply elem_of_seq in Hin.
    pose proof (Htracks t ltac:(lia)) as H2. pose proof (Htracks' t ltac:(lia)) as H3.
    apply FSFacts.container_at_Some in H2, H3. congruence.
  - destruct (decide (q = d)) as [->|Hqd].
    + pose proof (proj1 (ExportFacts.export_multitrack_keeps_dir s2 s2 p od
                           ltac:(apply FSFacts.exists_node_at;
                                 apply FSFacts.wave_open_rb_inr in Hopen2 as (Hc & _);
                                 apply FSFacts.container_at_Some in Hc; rewrite Hc; eauto)
                           Hmk2)) as H.
      rewrite Hrun2 in H. cbn [fst] in H. fold d in H. congruence.
    + pose proof (ExportMore.export_frame s2 p od q Hqd) as H. rewrite Hrun2 in H.
      apply H. intros t Ht Heq. apply Hnin. apply list_elem_of_fmap.
      exists t. split; [exact Heq|]. apply elem_of_seq. lia.
Qed.

Lemma export_is_idempotent_witness :
  (Tp7.export_multitrack Fixtures.disk ["multi.wav"%string] None).2 = Tp7.Success
  ∧ (Tp7.export_multitrack
       (Tp7.export_multitrack Fixtures.disk ["multi.wav"%string] None).1
       ["multi.wav"%string] None).2 = Tp7.Success
  ∧ forall q,
      FS.node_at
        (Tp7.export_multitrack
           (Tp7.export_multitrack Fixtures.disk ["multi.wav"%string] None).1
           ["multi.wav"%string] None).1 q
      = FS.node_at (Tp7.export_multitrack Fixtures.disk ["multi.wav"%string] None).1 q.
Proof.
  assert (H1 : (Tp7.export_multitrack Fixtures.disk ["multi.wav"%string] None).2 = Tp7.Success)
    by (vm_compute; reflexivity).
  split; [exact H1|].
  apply (export_is_idempotent Fixtures.disk ["multi.wav"%string] None H1).
  intros t Ht. do 6 (destruct t as [|t]; [vm_compute; discriminate|]). lia.
Defined.

Lemma export_success_requires_witness :
  (Tp7.export_multitrack Examples.disk ["multi.wav"%string] None).2 = Tp7.Success
  ∧ exists w s1,
      FS.wave_open_rb Examples.disk ["multi.wav"%string] = inr w ∧ FS.nchannels w = 12%nat
      ∧ Container.supported (FS.sampwidth w) ∧ FS.framerate w <> 0%N
      ∧ FS.mkdir_exist_ok Examples.disk ["multi_tracks"%string] = inr s1
      ∧ forall t, (t < 6)%nat ->
          FS.node_at Examples.disk (Tp7.track_file ["multi_tracks"%string] t) <> Some FS.Dir.
Proof.
  assert (H : (Tp7.export_multitrack Examples.disk ["multi.wav"%string] None).2 = Tp7.Success)
    by (vm_compute; reflexivity).
  split; [exact H|].
  exact (export_success_requires Examples.disk ["multi.wav"%string] None H).
Defined.

Lemma export_touches_only_outputs_witness :
  FS.node_at (Tp7.export_multitrack Examples.disk ["multi.wav"%string] None).1 ["a.wav"%string]
  = FS.node_at Examples.disk ["a.wav"%string]
  ∧ FS.wave_open_rb (Tp7.export_multitrack Examples.disk ["multi.wav"%string] None).1
      ["multi.wav"%string] = inr Examples.multitrack_16.
Proof.
  destruct (export_touches_only_outputs Examples.disk ["multi.wav"%string] None)
    as (Hframe & _ & Hinput).
  split.
  - apply Hframe; [discriminate|]. intros t Ht.
    do 6 (destruct t as [|t]; [vm_compute; discriminate|]). lia.
  - apply Hinput; [reflexivity|]. intros t Ht.
    do 6 (destruct t as [|t]; [vm_compute; discriminate|]). lia.
Defined.

(** ** Further properties of the multiplexer *)

Module ImportMore.
Import Codec FS Tp7 Container CodecFacts ArrayFacts WidthFacts FSFacts ContainerFacts
       ImportFacts MuxFacts ExportMore.


Lemma load_tracks_inr_supported (s : gmap path node) (width : nat) (rate : N)
    (f : path) (files : list path) (tracks : list (list (list Z))) :
  load_tracks s width rate (f :: files) = inr tracks -> supported width.
Proof.
  cbn [load_tracks].
  destruct (wave_open_rb s f) as [x|w]; [discriminate|].
  repeat (case_decide; [discriminate|]).
  destruct (to_array width _) as [a| |] eqn:Ha; try discriminate.
  intros _. eapply to_array_Decoded_supported, Ha.
Qed.

(** Only the output path can change, and a successful call leaves a
    12-channel container of the reference format there. *)
Lemma import_frame (s : gmap path node) (input_files : list path) (out q : path) :
  q <> out -> node_at (import_to_multitrack s input_files out).1 q = node_at s q.
Proof.
  intros Hq. unfold import_to_multitrack.
  destruct (filter _ input_files) as [|first valid]; [reflexivity|].
  case_decide; [reflexivity|].
  destruct (wave_open_rb s first) as [x|ref]; [reflexivity|].
  case_decide; [reflexivity|].
  destruct (load_tracks _ _ _ _) as [r|tracks]; [reflexivity|].
  case_decide; [reflexivity|].
  destruct (wave_write _ _ _ _ _ _) as [x|s'] eqn:Hwr; [reflexivity|].
  apply wave_write_inr in Hwr as (Hne & _ & _ & ->). cbn [fst].
  rewrite node_at_insert by exact Hne. rewrite decide_False by congruence. reflexivity.
Qed.

Lemma import_success_output (s : gmap path node) (input_files : list path) (out : path) :
  (import_to_multitrack s input_files out).2 = Success ->
  exists first ref Y,
    head (filter (fun f => exists_ s f = true) input_files) = Some first
    ∧ wave_open_rb s first = inr ref
    ∧ supported (sampwidth ref) ∧ framerate ref <> 0%N
    ∧ container_at (import_to_multitrack s input_files out).1 out = Some Y
    ∧ nchannels Y = 12%nat ∧ sampwidth Y = sampwidth ref ∧ framerate Y = framerate ref.
Proof.
  unfold import_to_multitrack.
  destruct (filter _ input_files) as [|first valid]; [discriminate|].
  case_decide; [discriminate|].
  destruct (wave_open_rb s first) as [x|ref] eqn:Hopen; [discriminate|].
  case_decide; [discriminate|].
  destruct (load_tracks _ _ _ _) as [r|tracks] eqn:Hload.
  { apply load_tracks_failures in Hload as (Hne & _). simpl. congruence. }
  case_decide as Hr; [discriminate|].
  destruct (wave_write _ _ _ _ _ _) as [x|s'] eqn:Hwr; [discriminate|].
  intros _. apply wave_write_inr in Hwr as (Hne & _ & _ & ->).
  exists first, ref,
    (Wave 12 (sampwidth ref) (framerate ref)
       (to_bytes (sampwidth ref) (mjoin (build_multitrack tracks)))).
  split; [reflexivity|]. split; [exact Hopen|].
  split; [eapply load_tracks_inr_supported, Hload|]. split; [exact Hr|].
  split; [|repeat split].
  apply container_at_Some. cbn [fst].
  rewrite node_at_insert, decide_True by auto. reflexivity.
Qed.

End ImportMore.

(** X10: what the multiplexer writes.  Whatever the outcome, every path
    other than the output path holds after the call what it held before;
    and when the call succeeds the output path holds a 12-channel
    container whose sample width (16, 24 or 32 bits) and sample rate
    (nonzero) are those of the first existing input. *)
Theorem import_writes_only_output
    (s : gmap FS.path FS.node) (input_files : list FS.path) (out : FS.path) :
  let r := Tp7.import_to_multitrack s input_files out in
  (forall q, q <> out -> FS.node_at r.1 q = FS.node_at s q)
  ∧ (r.2 = Tp7.Success ->
     exists first ref Y,
       head (filter (fun f => FS.exists_ s f = true) input_files) = Some first
       ∧ FS.wave_open_rb s first = inr ref
       ∧ Container.supported (FS.sampwidth ref) ∧ FS.framerate ref <> 0%N
       ∧ Container.container_at r.1 out = Some Y
       ∧ FS.nchannels Y = 12%nat
       ∧ FS.sampwidth Y = FS.sampwidth ref
       ∧ FS.framerate Y = FS.framerate ref).
Proof.
  intros r. split.
  - intros q Hq. apply ImportMore.import_frame, Hq.
  - apply ImportMore.import_success_output.
Qed.

Lemma import_writes_only_output_witness :
  FS.node_at
    (Tp7.import_to_multitrack Examples.disk [["a.wav"]; ["b.wav"]]%string ["out.wav"%string]).1
    ["a.wav"%string]
  = FS.node_at Examples.disk ["a.wav"%string]
  ∧ exists Y,
      Container.container_at
        (Tp7.import_to_multitrack Examples.disk [["a.wav"]; ["b.wav"]]%string
           ["out.wav"%string]).1 ["out.wav"%string] = Some Y
      ∧ FS.nchannels Y = 12%nat ∧ FS.sampwidth Y = 2%nat ∧ FS.framerate Y = 44100%N.
Proof.
  destruct (import_writes_only_output Examples.disk [["a.wav"]; ["b.wav"]]%string
              ["out.wav"%string]) as [Hframe Hout].
  split; [apply Hframe; discriminate|].
  destruct (Hout ltac:(vm_compute; reflexivity))
    as (first & ref & Y & Hfirst & Hopen & _ & _ & HY & HnY & HwY & HrY).
  injection Hfirst as <-. injection Hopen as <-.
  exists Y. split; [exact HY|]. split; [exact HnY|]. split; [exact HwY | exact HrY].
Defined.

(** X11: when the first existing input is stereo and its sample width is
    not 2, 3 or 4 bytes (8-bit audio, say), the multiplexer fails with
    UnsupportedBitDepth and writes nothing, whatever the other inputs
    are. *)
Theorem import_rejects_other_widths
    (s : gmap FS.path FS.node) (input_files : list FS.path) (out : FS.path)
    (first : FS.path) (rest : list FS.path) (ref : FS.wav) :
  filter (fun f => FS.exists_ s f = true) input_files = first :: rest ->
  (length rest < 6)%nat ->
  FS.wave_open_rb s first = inr ref ->
  FS.nchannels ref = 2%nat ->
  ~ Container.supported (FS.sampwidth ref) ->
  Tp7.import_to_multitrack s input_files out = (s, Tp7.Failure Tp7.UnsupportedBitDepth).
Proof.
  intros Hv Hlen Hopen Hn Hw.
  unfold Tp7.import_to_multitrack. rewrite Hv. cbv iota.
  rewrite decide_False by (simpl; lia).
  rewrite Hopen. rewrite decide_False by (intros E; apply E, Hn).
  cbn [Tp7.load_tracks]. rewrite Hopen.
  rewrite decide_False by (intros E; apply E, Hn).
  rewrite decide_False by (intros E; apply E; reflexivity).
  rewrite decide_False by (intros E; apply E; reflexivity).
  rewrite ExportMore.to_array_unsupported by assumption. reflexivity.
Qed.

Lemma import_rejects_other_widths_witness :
  FS.wave_open_rb Fixtures.disk ["eight.wav"%string] = inr Fixtures.stereo_8
  ∧ FS.sampwidth Fixtures.stereo_8 = 1%nat
  ∧ Tp7.import_to_multitrack Fixtures.disk [["eight.wav"]; ["a.wav"]]%string ["out.wav"%string]
    = (Fixtures.disk, Tp7.Failure Tp7.UnsupportedBitDepth).
Proof.
  split; [reflexivity|]. split; [reflexivity|].
  apply (import_rejects_other_widths Fixtures.disk [["eight.wav"]; ["a.wav"]]%string
           ["out.wav"%string] ["eight.wav"%string] [["a.wav"%string]] Fixtures.stereo_8
           eq_refl).
  - simpl. lia.
  - reflexivity.
  - reflexivity.
  - unfold Container.supported. simpl. lia.
Defined.



(** X13: an input the multiplexer cannot open.  The multiplexer catches
    no exception: when the inputs before [f] are stereo containers of the
    reference format and [wave.open] refuses [f] (not a WAV file, a
    directory), the exception leaves the call and nothing is written. *)
Theorem import_raises_on_unreadable_input
    (s : gmap FS.path FS.node) (input_files : list FS.path) (out : FS.path)
    (width : nat) (rate : N) (pre : list FS.path) (ws : list FS.wav)
    (f : FS.path) (post : list FS.path) (x : FS.exn) :
  filter (fun f => FS.exists_ s f = true) input_files = pre ++ f :: post ->
  (length (pre ++ f :: post) <= 6)%nat ->
  Forall2 (Container.stereo_input s width rate) pre ws ->
  Container.supported width ->
  FS.wave_open_rb s f = inl x ->
  Tp7.import_to_multitrack s input_files out = (s, Tp7.Uncaught x).
Proof.
  intros Hv Hlen Hpre Hw Hopen.
  destruct Hpre as [|p0 w0 pre ws Hp0 Hpre].
  - unfold Tp7.import_to_multitrack. rewrite Hv. cbn [app]. cbv iota.
    rewrite decide_False by (simpl in *; lia).
    rewrite Hopen. reflexivity.
  - rewrite (ImportFacts.import_after_prefix s input_files out width rate p0 w0 pre ws
               (f :: post)) by first [assumption | constructor; assumption].
    cbn [Tp7.load_tracks]. rewrite Hopen. reflexivity.
Qed.

Lemma import_raises_on_unreadable_input_witness :
  Tp7.import_to_multitrack Fixtures.disk [["a.wav"]; ["notes.txt"]; ["b.wav"]]%string
    ["out.wav"%string]
  = (Fixtures.disk, Tp7.Uncaught FS.WaveError)
  ∧ Tp7.import_to_multitrack Fixtures.disk [["taken"]; ["a.wav"]]%string ["out.wav"%string]
    = (Fixtures.disk, Tp7.Uncaught FS.IsADirectoryError).
Proof.
  split.
  - apply (import_raises_on_unreadable_input Fixtures.disk
             [["a.wav"]; ["notes.txt"]; ["b.wav"]]%string ["out.wav"%string] 2 44100
             [["a.wav"%string]] [Examples.stereo_16] ["notes.txt"%string] [["b.wav"%string]]
             FS.WaveError eq_refl).
    + simpl. lia.
    + repeat constructor.
    + left. reflexivity.
    + reflexivity.
  - apply (import_raises_on_unreadable_input Fixtures.disk
             [["taken"]; ["a.wav"]]%string ["out.wav"%string] 2 44100
             [] [] ["taken"%string] [["a.wav"%string]]
             FS.IsADirectoryError eq_refl).
    + simpl. lia.
    + constructor.
    + left. reflexivity.
    + reflexivity.
Defined.







(** ** The default output directory *)

Module PathFacts.
Import FS Tp7.

Lemma rfind_dot_ext (base ext : string) :
  rfind_dot ext = None ->
  rfind_dot (base +:+ "." +:+ ext) = Some (String.length base).
Proof.
  intros Hext. induction base as [|c base IH].
  - change ("" +:+ "." +:+ ext)%string with (String "." ext).
    cbn [rfind_dot String.length]. rewrite Hext. reflexivity.
  - change (String c base +:+ "." +:+ ext)%string with (String c (base +:+ "." +:+ ext)).
    cbn [rfind_dot String.length]. rewrite IH. reflexivity.
Qed.

Lemma length_string_app (a b : string) :
  String.length (a +:+ b) = (String.length a + String.length b)%nat.
Proof.
  induction a as [|c a IH]; [reflexivity|].
  change (String c a +:+ b)%string with (String c (a +:+ b)).
  cbn [String.length]. rewrite IH. reflexivity.
Qed.

Lemma substring_prefix (a b : string) : substring 0 (String.length a) (a +:+ b) = a.
Proof.
  induction a as [|c a IH]; [destruct b; reflexivity|].
  change (String c a +:+ b)%string with (String c (a +:+ b)).
  cbn [String.length substring]. rewrite IH. reflexivity.
Qed.

Lemma stem_ext (dir : path) (base ext : string) :
  base <> EmptyString -> ext <> EmptyString -> rfind_dot ext = None ->
  stem (dir ++ [(base +:+ "." +:+ ext)%string]) = base.
Proof.
  intros Hb He Hext. unfold stem, name. rewrite last_last.
  rewrite rfind_dot_ext by assumption.
  rewrite !length_string_app.
  assert (0 < String.length base)%nat by (destruct base; [contradiction | simpl; lia]).
  assert (0 < String.length ext)%nat by (destruct ext; [contradiction | simpl; lia]).
  change (String.length ".") with 1%nat.
  destruct (Nat.ltb_spec 0 (String.length base)); [|lia].
  destruct (Nat.ltb_spec (String.length base)
              (String.length base + (1 + String.length ext) - 1)); [|lia].
  cbn [andb]. apply substring_prefix.
Qed.

Lemma stem_no_dot (dir : path) (n : string) :
  rfind_dot n = None -> stem (dir ++ [n]) = n.
Proof.
  intros Hn. unfold stem, name. rewrite last_last, Hn. reflexivity.
Qed.

Lemma parent_snoc (dir : path) (n : string) : parent (dir ++ [n]) = dir.
Proof. unfold parent. apply removelast_last. Qed.

End PathFacts.

(** X17: the default output directory.  Without [-o], the tracks of
    [<dir>/<base>.<ext>] go to [<dir>/<base>_tracks]: the directory lies
    next to the input, and only the last extension is dropped ([base] may
    itself contain dots).  A name without a dot keeps all of it:
    [<dir>/<name>] gives [<dir>/<name>_tracks].  A directory given with
    [-o] is used as it is. *)
Theorem default_output_directory (dir : FS.path) (base ext : string) (given : FS.path) :
  base <> EmptyString -> ext <> EmptyString -> FS.rfind_dot ext = None ->
  Tp7.resolve_output_dir (dir ++ [(base +:+ "." +:+ ext)%string]) None
  = dir ++ [(base +:+ "_tracks")%string]
  ∧ Tp7.resolve_output_dir (dir ++ [ext]) None = dir ++ [(ext +:+ "_tracks")%string]
  ∧ Tp7.resolve_output_dir (dir ++ [(base +:+ "." +:+ ext)%string]) (Some given) = given.
Proof.
  intros Hb He Hext. unfold Tp7.resolve_output_dir. split; [|split].
  - rewrite PathFacts.parent_snoc, PathFacts.stem_ext by assumption. reflexivity.
  - rewrite PathFacts.parent_snoc, PathFacts.stem_no_dot by assumption. reflexivity.
  - reflexivity.
Qed.

Lemma default_output_directory_witness :
  Tp7.resolve_output_dir ["rec"; "take.1.WAV"]%string None = ["rec"; "take.1_tracks"]%string
  ∧ Tp7.resolve_output_dir ["rec"; "WAV"]%string None = ["rec"; "WAV_tracks"]%string.
Proof.
  destruct (default_output_directory ["rec"%string] "take.1" "WAV" []
              ltac:(discriminate) ltac:(discriminate) eq_refl) as (H1 & H2 & _).
  split; [exact H1 | exact H2].
Defined.

(** ** Multiplexing again *)

Module ImportAgain.
Import Codec FS Tp7 Container FSFacts ImportFacts ImportMore.

Section overwrite.
Variables (s : gmap path node) (out : path) (n : node).
Hypothesis out_not_nil : out <> [].

Lemma node_at_insert_other (f : path) :
  f <> out -> node_at (<[out := n]> s) f = node_at s f.
Proof.
  intros Hf. rewrite node_at_insert by exact out_not_nil.
  rewrite decide_False by congruence. reflexivity.
Qed.

Lemma exists_insert_other (f : path) :
  f <> out -> exists_ (<[out := n]> s) f = exists_ s f.
Proof. intros Hf. unfold exists_. rewrite node_at_insert_other by exact Hf. reflexivity. Qed.

Lemma wave_open_rb_insert_other (f : path) :
  f <> out -> wave_open_rb (<[out := n]> s) f = wave_open_rb s f.
Proof.
  intros Hf. unfold wave_open_rb. rewrite node_at_insert_other by exact Hf. reflexivity.
Qed.

Lemma filter_exists_insert (files : list path) :
  out ∉ files ->
  filter (fun f => exists_ (<[out := n]> s) f = true) files
  = filter (fun f => exists_ s f = true) files.
Proof.
  induction files as [|f files IH]; intros Hout; [reflexivity|].
  apply not_elem_of_cons in Hout as [Hf Hout].
  rewrite !filter_cons, exists_insert_other, IH by (assumption || congruence).
  reflexivity.
Qed.

Lemma load_tracks_insert (width : nat) (rate : N) (files : list path) :
  out ∉ files ->
  load_tracks (<[out := n]> s) width rate files = load_tracks s width rate files.
Proof.
  induction files as [|f files IH]; intros Hout; [reflexivity|].
  apply not_elem_of_cons in Hout as [Hf Hout].
  cbn [load_tracks]. rewrite wave_open_rb_insert_other, IH by (assumption || congruence).
  reflexivity.
Qed.

End overwrite.

End ImportAgain.

(** X18: multiplexing twice.  After a successful call whose output path
    is not among the paths given as inputs, the same call again succeeds
    and leaves the file system exactly as the first one left it. *)
Theorem import_is_idempotent
    (s : gmap FS.path FS.node) (input_files : list FS.path) (out : FS.path) :
  let r1 := Tp7.import_to_multitrack s input_files out in
  r1.2 = Tp7.Success ->
  out ∉ input_files ->
  Tp7.import_to_multitrack r1.1 input_files out = r1.
Proof.
  intros r1 Hrun Hout. unfold r1 in *. clear r1.
  unfold Tp7.import_to_multitrack in *.
  destruct (filter _ input_files) as [|first valid] eqn:Hvalid; [discriminate|].
  case_decide as Hlen; [discriminate|].
  destruct (FS.wave_open_rb s first) as [x|ref] eqn:Hopen; [discriminate|].
  case_decide as Hn; [discriminate|].
  destruct (Tp7.load_tracks _ _ _ _) as [r|tracks] eqn:Hload.
  { apply ImportFacts.load_tracks_failures in Hload as (Hne & _). simpl in Hrun. congruence. }
  case_decide as Hr; [discriminate|].
  destruct (FS.wave_write _ _ _ _ _ _) as [x|s'] eqn:Hwr; [discriminate|].
  clear Hrun. cbn [fst].
  pose proof (ImportMore.load_tracks_inr_supported _ _ _ _ _ _ Hload) as Hw.
  apply FSFacts.wave_write_inr in Hwr as (Hne & Hnd & Hpar & ->).
  assert (Hvalid_out : out ∉ first :: valid).
  { rewrite <- Hvalid. intros Hin. apply list_elem_of_filter in Hin as [_ Hin]. contradiction. }
  rewrite ImportAgain.filter_exists_insert, Hvalid by assumption.
  rewrite decide_False by assumption.
  rewrite ImportAgain.wave_open_rb_insert_other, Hopen
    by (assumption || (intros ->; apply Hvalid_out; left)).
  rewrite decide_False by (intros E; apply E, Hn).
  rewrite ImportAgain.load_tracks_insert, Hload by assumption.
  rewrite decide_False by assumption.
  rewrite FSFacts.wave_write_ok.
  - rewrite insert_insert_eq. reflexivity.
  - rewrite FSFacts.node_at_insert, decide_True by auto. discriminate.
  - rewrite ImportAgain.node_at_insert_other; [exact Hpar | exact Hne |].
    intros Heq. rewrite Heq in Hpar. contradiction.
  - lia.
  - destruct Hw as [Hw | [Hw | Hw]]; rewrite Hw; lia.
  - exact Hr.
Qed.

Lemma import_is_idempotent_witness :
  (Tp7.import_to_multitrack Examples.disk [["a.wav"]; ["nowhere.wav"]; ["b.wav"]]%string
     ["out.wav"%string]).2 = Tp7.Success
  ∧ Tp7.import_to_multitrack
      (Tp7.import_to_multitrack Examples.disk [["a.wav"]; ["nowhere.wav"]; ["b.wav"]]%string
         ["out.wav"%string]).1
      [["a.wav"]; ["nowhere.wav"]; ["b.wav"]]%string ["out.wav"%string]
    = Tp7.import_to_multitrack Examples.disk [["a.wav"]; ["nowhere.wav"]; ["b.wav"]]%string
        ["out.wav"%string].
Proof.
  assert (H1 : (Tp7.import_to_multitrack Examples.disk
                  [["a.wav"]; ["nowhere.wav"]; ["b.wav"]]%string ["out.wav"%string]).2
               = Tp7.Success) by (vm_compute; reflexivity).
  split; [exact H1|].
  apply (import_is_idempotent Examples.disk [["a.wav"]; ["nowhere.wav"]; ["b.wav"]]%string
           ["out.wav"%string] H1).
  intros Hin. repeat (apply elem_of_cons in Hin as [Hin | Hin]; [discriminate|]).
  apply elem_of_nil in Hin. contradiction.
Defined.
